(** * form.py: bulk form submission, verified against its specification

    A shallow embedding of [src/form.py].  Python [str] values are Rocq
    [string]s (one [ascii] per code point below 256), a [dict] with string
    keys is a [gmap string string], and the effects of the script (printing,
    HTTP POSTs, sleeping, writing the CSV log) are recorded as events in an
    explicit world that is threaded through a small state-and-exception
    monad. *)

From Stdlib Require Import Ascii String ZArith QArith.
From stdpp Require Import gmap strings list fin_maps pretty.

Local Open Scope string_scope.
Local Open Scope Z_scope.

(** ** Python string primitives *)

Module PyStr.

(** Truthiness of a [str]: non-empty. *)
Definition truthy (s : string) : bool :=
  match s with
  | EmptyString => false
  | String _ _ => true
  end.

(** [str.isspace] on one code point below 256: TAB..CR, FS..US, SPACE,
    NEL and NBSP. *)
Definition isspace (c : ascii) : bool :=
  let n := nat_of_ascii c in
  ((9 <=? n)%nat && (n <=? 13)%nat)
  || ((28 <=? n)%nat && (n <=? 32)%nat)
  || (n =? 133)%nat || (n =? 160)%nat.

Fixpoint lstrip (s : string) : string :=
  match s with
  | EmptyString => EmptyString
  | String c s' => if isspace c then lstrip s' else s
  end.

Fixpoint rstrip (s : string) : string :=
  match s with
  | EmptyString => EmptyString
  | String c s' =>
      let r := rstrip s' in
      if isspace c && negb (truthy r) then EmptyString else String c r
  end.

(** [s.strip()] *)
Definition strip (s : string) : string := rstrip (lstrip s).

(** [s.split(sep)] for a one-character separator: always at least one
    piece, empty pieces kept. *)
Fixpoint split (sep : ascii) (s : string) : list string :=
  match s with
  | EmptyString => [EmptyString]
  | String c s' =>
      let r := split sep s' in
      if Ascii.eqb c sep then EmptyString :: r
      else match r with
           | h :: t => String c h :: t
           | [] => [String c EmptyString]
           end
  end.

(** [sep in s] for a one-character [sep]. *)
Fixpoint contains (sep : ascii) (s : string) : bool :=
  match s with
  | EmptyString => false
  | String c s' => Ascii.eqb c sep || contains sep s'
  end.

(** [s.split(sep, 1)]: split at the first separator only. *)
Fixpoint split1 (sep : ascii) (s : string) : list string :=
  match s with
  | EmptyString => [EmptyString]
  | String c s' =>
      if Ascii.eqb c sep then [EmptyString; s']
      else match split1 sep s' with
           | h :: t => String c h :: t
           | [] => [String c EmptyString]
           end
  end.

(** [str.lower] on one code point below 256. *)
Definition lower_char (c : ascii) : ascii :=
  let n := nat_of_ascii c in
  if ((65 <=? n)%nat && (n <=? 90)%nat)
     || ((192 <=? n)%nat && (n <=? 222)%nat && negb (n =? 215)%nat)
  then ascii_of_nat (n + 32) else c.

Fixpoint lower (s : string) : string :=
  match s with
  | EmptyString => EmptyString
  | String c s' => String (lower_char c) (lower s')
  end.

(** [s[:n]] *)
Definition take (n : nat) (s : string) : string := substring 0 n s.

(** [s.replace(a, b)] for one-character [a] and [b]. *)
Fixpoint replace_char (a b : ascii) (s : string) : string :=
  match s with
  | EmptyString => EmptyString
  | String c s' =>
      String (if Ascii.eqb c a then b else c) (replace_char a b s')
  end.

(** [s.replace(a + b, '')] for characters [a] and [b]: every occurrence
    of the pair is removed, scanning from the left. *)
Fixpoint remove_pair (a b : ascii) (s : string) : string :=
  match s with
  | String c1 (String c2 rest as s') =>
      if Ascii.eqb c1 a && Ascii.eqb c2 b then remove_pair a b rest
      else String c1 (remove_pair a b s')
  | _ => s
  end.

(** The double-quote character, code point 34. *)
Definition dquote : ascii := ascii_of_nat 34.
(** The backslash, code point 92, and the NUL character. *)
Definition backslash : ascii := ascii_of_nat 92.
Definition nul : ascii := ascii_of_nat 0.
(** The line feed, code point 10. *)
Definition newline : ascii := ascii_of_nat 10.
Definition carriage_return : ascii := ascii_of_nat 13.

(** [str(b)] for a [bool]. *)
Definition of_bool (b : bool) : string := if b then "True" else "False".

End PyStr.

(** [s.startswith(q)] and [s.endswith(q)] for a one-character [q]. *)
Definition startswith_char (q : ascii) (s : string) : bool :=
  match s with
  | EmptyString => false
  | String c _ => Ascii.eqb c q
  end.

Fixpoint endswith_char (q : ascii) (s : string) : bool :=
  match s with
  | EmptyString => false
  | String c EmptyString => Ascii.eqb c q
  | String _ s' => endswith_char q s'
  end.

(** ** Configuration *)

(** The two sources [getenv] consults: the mapping read from [.env] and the
    process environment. *)
Record environment := {
  ENV : gmap string string;
  os_environ : gmap string string;
}.

(** [val = ENV.get(key, os.getenv(key, default))], [None] when neither
    source has the key and there is no default. *)
Definition getenv_raw (e : environment) (key : string) : option string :=
  match ENV e !! key with
  | Some v => Some v
  | None => os_environ e !! key
  end.

(** [getenv(key, default)] with the default [cast=str] and a [str] default:
    [str(val)] is the identity and never raises. *)
Definition getenv (e : environment) (key default : string) : string :=
  match getenv_raw e key with
  | Some v => v
  | None => default
  end.

(** [getenv(key, default, bool)] with a [bool] default. *)
Definition getenv_bool (e : environment) (key : string) (default : bool) : bool :=
  let val :=
    match getenv_raw e key with
    | Some v => v
    | None => PyStr.of_bool default
    end in
  bool_decide (PyStr.lower val ∈ ["1"; "true"; "yes"; "y"; "on"]).

(** [parse_csv_list] *)
Definition parse_csv_list (s : string) : list string :=
  if PyStr.truthy s
  then filter (λ x, PyStr.truthy x = true) (PyStr.strip <$> PyStr.split "," s)
  else [].

(** [extra_fields_from_env]: [v] comes from [getenv] with a [str] default
    and is therefore never [None]. *)
Definition extra_field_key (e : environment) (i : nat) : string :=
  getenv e ("EXTRA_FIELD_" +:+ pretty i +:+ "_KEY") EmptyString.

Definition extra_field_value (e : environment) (i : nat) : string :=
  getenv e ("EXTRA_FIELD_" +:+ pretty i +:+ "_VALUE") EmptyString.

Definition extra_fields_step (e : environment)
    (extras : gmap string string) (i : nat) : gmap string string :=
  let k := extra_field_key e i in
  let v := extra_field_value e i in
  if PyStr.truthy k then <[k := v]> extras else extras.

Definition extra_fields_from_env (e : environment) (max_n : nat)
    : gmap string string :=
  foldl (extra_fields_step e) ∅ (seq 1 max_n).

(** A Python [float]: a finite number, taken as the rational it denotes
    (the two zeros are one), an infinity or a NaN.  [float(val)] in
    [getenv] yields any of them: ["inf"], ["-inf"] and ["nan"] parse, and
    so does ["1e400"], to an infinity. *)
Inductive pyfloat :=
  | Finite (q : Q)
  | Infinity (negative : bool)
  | NaN.

(** The module-level settings of the script.  [DELAY_SECONDS] is a
    [float]; the two [int] settings are integers. *)
Record Config := {
  FORM_RESPONSE_URL : string;
  REFERER_URL : string;
  USER_AGENT : string;
  ADDRESS_FILE : string;
  OUTPUT_CSV : string;
  BASE_USERNAME : string;
  DELAY_SECONDS : pyfloat;
  MAX_RETRIES : Z;
  TIMEOUT : Z;
  FVV : string;
  PAGE_HISTORY : string;
  FBZX : string;
  PARTIAL_RESPONSE : string;
  ENTRY_USERNAME : string;
  ENTRY_ADDRESS : string;
  ENTRY_YES : string;
  ENTRY_DONE : string;
  VALUE_YES : string;
  VALUE_DONE : string;
  ENTRY_YES_SENTINEL : string;
  ENTRY_DONE_SENTINEL : string;
  SESSION_COOKIES : string;
  ADDRESS_KEYS : list string;
  CHECKBOX_KEYS : list string;
  CHECKBOX_VALUE : string;
  AUTO_SENTINEL_FOR_CHECKBOX : bool;
  EXTRA_FIELDS : gmap string string;
}.

(** The numeric settings after [getenv]'s [float]/[int] coercion (a value
    that does not parse has already been replaced by its default). *)
Record numeric_settings := {
  delay_seconds : pyfloat;
  max_retries : Z;
  timeout : Z;
}.

Definition default_numeric : numeric_settings :=
  {| delay_seconds := Finite 2; max_retries := 2; timeout := 30 |}.

Definition default_user_agent : string :=
  "Mozilla/5.0 (Windows NT 10.0; Win64; x64) " +:+
  "AppleWebKit/537.36 (KHTML, like Gecko) " +:+
  "Chrome/141.0.0.0 Safari/537.36".

(** The configuration block of the script, lines 52-103. *)
Definition load_config (e : environment) (n : numeric_settings) : Config := {|
  FORM_RESPONSE_URL := getenv e "FORM_RESPONSE_URL" EmptyString;
  REFERER_URL := getenv e "REFERER_URL" EmptyString;
  USER_AGENT := getenv e "USER_AGENT" default_user_agent;
  ADDRESS_FILE := getenv e "ADDRESS_FILE" "address.txt";
  OUTPUT_CSV := getenv e "OUTPUT_CSV" "results.csv";
  BASE_USERNAME := getenv e "BASE_USERNAME" "bebas";
  DELAY_SECONDS := delay_seconds n;
  MAX_RETRIES := max_retries n;
  TIMEOUT := timeout n;
  FVV := getenv e "FVV" "1";
  PAGE_HISTORY := getenv e "PAGE_HISTORY" "0";
  FBZX := getenv e "FBZX" EmptyString;
  PARTIAL_RESPONSE := getenv e "PARTIAL_RESPONSE" EmptyString;
  ENTRY_USERNAME := getenv e "ENTRY_USERNAME" EmptyString;
  ENTRY_ADDRESS := getenv e "ENTRY_ADDRESS" EmptyString;
  ENTRY_YES := getenv e "ENTRY_YES" EmptyString;
  ENTRY_DONE := getenv e "ENTRY_DONE" EmptyString;
  VALUE_YES := getenv e "VALUE_YES" "Yes";
  VALUE_DONE := getenv e "VALUE_DONE" "Done";
  ENTRY_YES_SENTINEL := getenv e "ENTRY_YES_SENTINEL" EmptyString;
  ENTRY_DONE_SENTINEL := getenv e "ENTRY_DONE_SENTINEL" EmptyString;
  SESSION_COOKIES := getenv e "SESSION_COOKIES" EmptyString;
  ADDRESS_KEYS := parse_csv_list (getenv e "ADDRESS_KEYS" EmptyString);
  CHECKBOX_KEYS := parse_csv_list (getenv e "CHECKBOX_KEYS" EmptyString);
  CHECKBOX_VALUE := getenv e "CHECKBOX_VALUE" "Completed";
  AUTO_SENTINEL_FOR_CHECKBOX := getenv_bool e "AUTO_SENTINEL_FOR_CHECKBOX" true;
  EXTRA_FIELDS := extra_fields_from_env e 20;
|}.

(** ** The payload builder *)

(** [for k in ADDRESS_KEYS: payload[k] = address] *)
Definition set_address_keys (keys : list string) (address : string)
    (payload : gmap string string) : gmap string string :=
  foldl (λ p k, <[k := address]> p) payload keys.

(** One iteration of the checkbox loop. *)
Definition set_checkbox (value : string) (auto_sentinel : bool)
    (payload : gmap string string) (k : string) : gmap string string :=
  let payload := <[k := value]> payload in
  if auto_sentinel then <[k +:+ "_sentinel" := EmptyString]> payload
  else payload.

Definition set_checkbox_keys (keys : list string) (value : string)
    (auto_sentinel : bool) (payload : gmap string string)
    : gmap string string :=
  foldl (set_checkbox value auto_sentinel) payload keys.

(** [for k, v in EXTRA_FIELDS.items(): payload[k] = v] *)
Definition set_extra_fields (extras payload : gmap string string)
    : gmap string string :=
  foldl (λ p kv, <[kv.1 := kv.2]> p) payload (map_to_list extras).

(** The derived partial-response token, [f'[null,null,"{FBZX}"]']. *)
Definition derived_partial_response (fbzx : string) : string :=
  "[null,null," +:+ String PyStr.dquote (fbzx +:+ String PyStr.dquote "]").

(** [if cond: payload[k] = v] *)
Definition assign_if (cond : bool) (k v : string)
    (payload : gmap string string) : gmap string string :=
  if cond then <[k := v]> payload else payload.

(** The statement shared by the yes and the done flag:
    [if ENTRY: payload[ENTRY] = VALUE; if SENTINEL: payload[SENTINEL] = ""]
    with the second [if] nested in the first. *)
Definition set_flag (entry value sentinel : string)
    (payload : gmap string string) : gmap string string :=
  if PyStr.truthy entry
  then assign_if (PyStr.truthy sentinel) sentinel EmptyString
         (<[entry := value]> payload)
  else payload.

(** [build_payload] *)
Definition build_payload (c : Config) (username address : string)
    : gmap string string :=
  let payload : gmap string string := ∅ in
  let payload :=
    assign_if (PyStr.truthy (ENTRY_USERNAME c) && PyStr.truthy username)
      (ENTRY_USERNAME c) username payload in
  let payload :=
    assign_if (PyStr.truthy (ENTRY_ADDRESS c) && PyStr.truthy address)
      (ENTRY_ADDRESS c) address payload in
  let payload := set_address_keys (ADDRESS_KEYS c) address payload in
  let payload :=
    set_checkbox_keys (CHECKBOX_KEYS c) (CHECKBOX_VALUE c)
      (AUTO_SENTINEL_FOR_CHECKBOX c) payload in
  let payload :=
    set_flag (ENTRY_YES c) (VALUE_YES c) (ENTRY_YES_SENTINEL c) payload in
  let payload :=
    set_flag (ENTRY_DONE c) (VALUE_DONE c) (ENTRY_DONE_SENTINEL c) payload in
  let payload := set_extra_fields (EXTRA_FIELDS c) payload in
  let payload := assign_if (PyStr.truthy (FVV c)) "fvv" (FVV c) payload in
  let payload :=
    assign_if (PyStr.truthy (PAGE_HISTORY c)) "pageHistory" (PAGE_HISTORY c)
      payload in
  let payload := assign_if (PyStr.truthy (FBZX c)) "fbzx" (FBZX c) payload in
  let pr := PARTIAL_RESPONSE c in
  let pr :=
    if negb (PyStr.truthy pr) && PyStr.truthy (FBZX c)
    then derived_partial_response (FBZX c) else pr in
  assign_if (PyStr.truthy pr) "partialResponse" pr payload.

(** ** Exceptions, the outside world and the effect monad *)

(** Instances of [Exception], by the classes the script distinguishes or
    meets; [exn_str] is [str(e)].  [OSError] stands for the instances of
    [OSError] and of its subclasses ([FileNotFoundError] and the like) that
    are not a [requests.RequestException]. *)
Inductive exn_class :=
  | RequestException
  | RuntimeError
  | ValueError
  | OverflowError
  | OSError
  | OtherException.

Record exn := { exn_cls : exn_class; exn_str : string }.

(** [isinstance(e, requests.RequestException)] *)
Definition is_request_exception (e : exn) : bool :=
  match exn_cls e with
  | RequestException => true
  | _ => false
  end.

(** What the script reads of a [requests.Response]. *)
Record Response := { status_code : Z; text : string }.

(** One [session.post] either returns a response (whatever its status) or
    raises. *)
Inductive post_outcome :=
  | Responds (r : Response)
  | Fails (e : exn).

(** The headers and cookies the script puts on its [requests.Session]. *)
Record Session := {
  headers : gmap string string;
  cookies : gmap string string;
}.

(** A cell of the [status_code] column: an [int] or a [str]. *)
Inductive cell :=
  | CInt (z : Z)
  | CStr (s : string).

(** The dict handed to [writer.writerow]. *)
Record Row := {
  row_timestamp : string;
  row_username : string;
  row_address : string;
  row_status_code : cell;
  row_ok : bool;
  row_resp_snippet : string;
}.

(** The observable actions of a run, in the order they happen. *)
Inductive event :=
  | Print (line : string)
  | Post (s : Session) (url : string) (data : gmap string string) (tmo : Z)
  | Sleep (secs : Q)
  | OpenW (path : string)
  | WriteHeader (fieldnames : list string)
  | WriteRow (r : Row)
  | Close (path : string).

(** What the environment answers: the outcome of the n-th POST, the n-th
    reading of the clock, the n-th random draw, and the files on disk; the
    error, if any, with which the operating system refuses to open a path
    for writing (a missing directory, a directory, no permission), and the
    error, if any, with which it refuses a sleep of so many seconds (on
    Linux [OSError: [Errno 22] Invalid argument] once the deadline passes
    the range of the monotonic clock, some 292 years after boot). *)
Record Oracle := {
  http_post : nat → post_outcome;
  utcnow_isoformat : nat → string;
  random_draw : nat → Z;
  files : gmap string string;
  open_error : string → option exn;
  sleep_error : Q → option exn;
}.

Record World := {
  events : list event;
  posts_made : nat;
  clock_reads : nat;
  random_draws : nat;
}.

Definition initial_world : World :=
  {| events := []; posts_made := 0; clock_reads := 0; random_draws := 0 |}.

Inductive result (A : Type) :=
  | Returns (a : A)
  | Raises (e : exn).
Arguments Returns {A} a.
Arguments Raises {A} e.

(** A computation: from a world to a result and the world after it. *)
Definition M (A : Type) : Type := World → result A * World.

#[global] Instance M_ret : MRet M := λ A a w, (Returns a, w).

#[global] Instance M_bind : MBind M := λ A B f m w,
  match m w with
  | (Returns a, w') => f a w'
  | (Raises e, w') => (Raises e, w')
  end.

Definition raise {A} (e : exn) : M A := λ w, (Raises e, w).

(** [try: m  except <class>: handler]; an exception the clause does not
    match, or one the handler raises, propagates. *)
Definition try_except {A} (m : M A) (catches : exn → bool)
    (handler : exn → M A) : M A := λ w,
  match m w with
  | (Returns a, w') => (Returns a, w')
  | (Raises e, w') => if catches e then handler e w' else (Raises e, w')
  end.

Definition emit (ev : event) : M unit := λ w,
  (Returns tt,
   {| events := events w ++ [ev]; posts_made := posts_made w;
      clock_reads := clock_reads w; random_draws := random_draws w |}).

Definition print (line : string) : M unit := emit (Print line).

(** The exceptions of [time.sleep]: on a negative length, on a NaN, and on
    a length that does not fit the 64-bit count of nanoseconds. *)
Definition negative_sleep : exn :=
  {| exn_cls := ValueError; exn_str := "sleep length must be non-negative" |}.

Definition nan_sleep : exn :=
  {| exn_cls := ValueError; exn_str := "Invalid value NaN (not a number)" |}.

Definition sleep_overflow : exn :=
  {| exn_cls := OverflowError;
     exn_str := "timestamp too large to convert to C _PyTime_t" |}.

(** [time.sleep(secs)] for a [float], as CPython 3.11 does it on x86-64.
    The length is first turned into nanoseconds, in floating point: a NaN is
    a [ValueError], and the product [secs * 1e9], rounded to the nearest
    [float], is an [OverflowError] outside [-2^63, 2^63].  The floats next
    to [2^63] are [2^63 - 1024] and [2^63 + 2048], those next to [-2^63]
    are [-2^63 - 2048] and [-2^63 + 1024], and ties go to [2^63] and
    [-2^63], so the product rounds beyond the range exactly when the exact
    product is above [2^63 + 1024] or below [-2^63 - 1024].  The count of
    nanoseconds is the product rounded away from zero, so that a length
    below zero is a count below zero: [ValueError].  A product that rounds
    to [2^63] itself passes the range test and becomes [-2^63] in the
    64-bit count, a negative length again.  What is left is handed to the
    operating system, which sleeps or refuses. *)
Definition time_sleep (o : Oracle) (secs : pyfloat) : M unit :=
  match secs with
  | NaN => raise nan_sleep
  | Infinity _ => raise sleep_overflow
  | Finite q =>
      let ns := (q * inject_Z 1000000000)%Q in
      if negb (Qle_bool ns (inject_Z (2 ^ 63 + 1024)))
         || negb (Qle_bool (inject_Z (- 2 ^ 63 - 1024)) ns)
      then raise sleep_overflow
      else if Qle_bool (inject_Z (2 ^ 63 - 512)) ns || negb (Qle_bool 0 ns)
      then raise negative_sleep
      else match sleep_error o q with
           | Some e => raise e
           | None => emit (Sleep q)
           end
  end.

(** [time.sleep(n)] for the [int] the retry loop passes: [2], [3], and so
    on up to [MAX_RETRIES + 1].  Only the sign is tested: the count of
    nanoseconds would overflow from [n = 9223372037] on, and the operating
    system would refuse a little earlier, both after more than nine billion
    failed attempts on one record. *)
Definition time_sleep_int (n : Z) : M unit :=
  if 0 <=? n then emit (Sleep (inject_Z n)) else raise negative_sleep.

(** [session.post(url, data=..., timeout=..., allow_redirects=True)] *)
Definition session_post (o : Oracle) (s : Session) (url : string)
    (data : gmap string string) (tmo : Z) : M Response := λ w,
  let w' := {| events := events w ++ [Post s url data tmo];
               posts_made := S (posts_made w);
               clock_reads := clock_reads w;
               random_draws := random_draws w |} in
  match http_post o (posts_made w) with
  | Responds r => (Returns r, w')
  | Fails e => (Raises e, w')
  end.

(** [datetime.utcnow().isoformat()] *)
Definition utcnow (o : Oracle) : M string := λ w,
  (Returns (utcnow_isoformat o (clock_reads w)),
   {| events := events w; posts_made := posts_made w;
      clock_reads := S (clock_reads w); random_draws := random_draws w |}).

(** [random.randint(1000, 9999)] *)
Definition random_randint_1000_9999 (o : Oracle) : M Z := λ w,
  (Returns (1000 + random_draw o (random_draws w) `mod` 9000),
   {| events := events w; posts_made := posts_made w;
      clock_reads := clock_reads w; random_draws := S (random_draws w) |}).

(** What [open(path, "w", ...)] raises, if anything: [ValueError] for a
    path with a NUL character, [FileNotFoundError] for the empty path, and
    otherwise what the operating system says. *)
Definition embedded_null_byte : exn :=
  {| exn_cls := ValueError; exn_str := "embedded null byte" |}.

Definition no_such_file : exn :=
  {| exn_cls := OSError;
     exn_str := "[Errno 2] No such file or directory: ''" |}.

Definition open_w_error (o : Oracle) (path : string) : option exn :=
  if PyStr.contains PyStr.nul path then Some embedded_null_byte
  else if negb (PyStr.truthy path) then Some no_such_file
  else open_error o path.

(** [with open(path, "w", ...) as f: body]: when [open] raises, the body is
    not entered; otherwise the file is closed whether the body returns or
    raises. *)
Definition with_open_w {A} (o : Oracle) (path : string) (body : M A) : M A :=
  λ w,
  match open_w_error o path with
  | Some e => (Raises e, w)
  | None =>
      match (emit (OpenW path) ≫= λ _, body) w with
      | (r, w') => (r, snd (emit (Close path) w'))
      end
  end.

(** ** Helpers of the script *)

(** [gen_username] *)
Definition gen_username (o : Oracle) (prefix : string) : M string :=
  n ← random_randint_1000_9999 o; mret (prefix +:+ pretty n).

(** The lines a text file yields when iterated: universal newlines, so a
    carriage return ends a line as a line feed does (the empty piece between
    the two halves of a CR LF pair is dropped by the caller like every blank
    line). *)
Definition file_lines (content : string) : list string :=
  PyStr.split PyStr.newline
    (PyStr.replace_char PyStr.carriage_return PyStr.newline content).

(** [read_addresses] *)
Definition read_addresses (o : Oracle) (path : string) : list string :=
  match files o !! path with
  | None => []
  | Some content =>
      filter (λ s, PyStr.truthy s = true) (PyStr.strip <$> file_lines content)
  end.

(** The cookie part of [mk_session]: ["a=1; b=2"] to a dict. *)
Definition cookie_pairs (raw : string) : list string :=
  filter (λ c, PyStr.truthy c = true) (PyStr.strip <$> PyStr.split ";" raw).

Definition cookie_dict_step (cookie_dict : gmap string string) (p : string)
    : gmap string string :=
  if PyStr.contains "=" p then
    match PyStr.split1 "=" p with
    | [k; v] => <[PyStr.strip k := PyStr.strip v]> cookie_dict
    | _ => cookie_dict
    end
  else cookie_dict.

Definition parse_cookies (raw : string) : gmap string string :=
  foldl cookie_dict_step ∅ (cookie_pairs raw).

(** What the cookie jar of [requests] keeps of a value handed to it
    ([RequestsCookieJar.set_cookie]): a value that starts and ends with a
    double quote loses every backslash that is followed by a double quote,
    together with that quote. *)
Definition jar_value (v : string) : string :=
  if startswith_char PyStr.dquote v && endswith_char PyStr.dquote v
  then PyStr.remove_pair PyStr.backslash PyStr.dquote v
  else v.

(** [mk_session].  Only the headers the script sets are kept;
    [s.cookies.update(cookie_dict)] sets the cookies one by one, each
    value as the jar keeps it. *)
Definition mk_session (c : Config) : M Session :=
  let s := {|
    headers :=
      <["Content-Type" := "application/x-www-form-urlencoded"]>
        (<["Referer" := if PyStr.truthy (REFERER_URL c)
                        then REFERER_URL c else FORM_RESPONSE_URL c]>
           (<["User-Agent" := USER_AGENT c]> ∅));
    cookies := ∅ |} in
  if PyStr.truthy (SESSION_COOKIES c) then
    let cookie_dict := parse_cookies (SESSION_COOKIES c) in
    let s := {| headers := headers s;
                cookies := (jar_value <$> cookie_dict) ∪ cookies s |} in
    print ("[INFO] Cookies set: " +:+ pretty (size cookie_dict) +:+ " item(s)");;
    mret s
  else mret s.

(** [RuntimeError("request failed")] *)
Definition request_failed : exn :=
  {| exn_cls := RuntimeError; exn_str := "request failed" |}.

(** [submit_with_retries]: the loop over [range(1, MAX_RETRIES+1)], with
    [remaining] iterations left, the current [attempt] and [last_exc]. *)
Fixpoint submit_attempts (c : Config) (o : Oracle) (session : Session)
    (payload : gmap string string) (remaining : nat) (attempt : Z)
    (last_exc : option exn) : M Response :=
  match remaining with
  | O =>
      raise (match last_exc with
             | Some e => e
             | None => request_failed
             end)
  | S remaining' =>
      try_except
        (session_post o session (FORM_RESPONSE_URL c) payload (TIMEOUT c))
        is_request_exception
        (λ e,
           print ("[WARN] attempt " +:+ pretty attempt +:+ "/" +:+
                  pretty (MAX_RETRIES c) +:+ " failed: " +:+ exn_str e);;
           time_sleep_int (1 + attempt);;
           submit_attempts c o session payload remaining' (attempt + 1) (Some e))
  end.

Definition submit_with_retries (c : Config) (o : Oracle) (session : Session)
    (payload : gmap string string) : M Response :=
  submit_attempts c o session payload (Z.to_nat (MAX_RETRIES c)) 1 None.

(** ** The run driver *)

Definition csv_fieldnames : list string :=
  ["timestamp"; "username"; "address"; "status_code"; "ok"; "resp_snippet"].

(** The truthiness test of line 210: at least one field setting is
    populated. *)
Definition any_field_configured (c : Config) : bool :=
  PyStr.truthy (ENTRY_USERNAME c) || PyStr.truthy (ENTRY_ADDRESS c)
  || PyStr.truthy (ENTRY_YES c) || PyStr.truthy (ENTRY_DONE c)
  || bool_decide (ADDRESS_KEYS c ≠ []) || bool_decide (CHECKBOX_KEYS c ≠ [])
  || bool_decide (EXTRA_FIELDS c ≠ ∅).

(** [200 <= resp.status_code < 400] *)
Definition status_ok (code : Z) : bool := (200 <=? code) && (code <? 400).

(** The [try]/[except Exception] statement of the loop, lines 234-256. *)
Definition submit_and_log (c : Config) (o : Oracle) (s : Session)
    (username addr : string) (payload : gmap string string) : M unit :=
  try_except
    (resp ← submit_with_retries c o s payload;
     let ok := status_ok (status_code resp) in
     let snippet :=
       PyStr.replace_char PyStr.newline " " (PyStr.take 400 (text resp)) in
     print ("   -> HTTP " +:+ pretty (status_code resp) +:+ " ok=" +:+
            PyStr.of_bool ok);;
     ts ← utcnow o;
     emit (WriteRow {| row_timestamp := ts; row_username := username;
                       row_address := addr;
                       row_status_code := CInt (status_code resp);
                       row_ok := ok; row_resp_snippet := snippet |}))
    (λ _, true)
    (λ e,
       print ("   -> ERROR: " +:+ exn_str e);;
       ts ← utcnow o;
       emit (WriteRow {| row_timestamp := ts; row_username := username;
                         row_address := addr;
                         row_status_code := CStr "ERR";
                         row_ok := false;
                         row_resp_snippet := PyStr.take 400 (exn_str e) |})).

(** One iteration of the loop over [enumerate(addresses, start=1)]. *)
Definition process_record (c : Config) (o : Oracle) (s : Session)
    (total i : nat) (addr : string) : M unit :=
  username ← (if PyStr.truthy (ENTRY_USERNAME c)
              then gen_username o (BASE_USERNAME c) else mret EmptyString);
  let payload := build_payload c username addr in
  print ("[" +:+ pretty i +:+ "/" +:+ pretty total +:+ "] submit username=" +:+
         (if PyStr.truthy username then username else "-") +:+
         " address=" +:+ addr);;
  submit_and_log c o s username addr payload;;
  time_sleep o (DELAY_SECONDS c).

Fixpoint process_records (c : Config) (o : Oracle) (s : Session)
    (total i : nat) (addresses : list string) : M unit :=
  match addresses with
  | [] => mret tt
  | addr :: rest =>
      process_record c o s total i addr;;
      process_records c o s total (S i) rest
  end.

(** [main] *)
Definition main (c : Config) (o : Oracle) : M unit :=
  if negb (PyStr.truthy (FORM_RESPONSE_URL c)) then
    print "[ERROR] FORM_RESPONSE_URL belum diset di .env"
  else if negb (any_field_configured c) then
    print ("[ERROR] Tidak ada field entry.* yang diset. Set minimal satu " +:+
           "dari ENTRY_USERNAME / ENTRY_ADDRESS / ADDRESS_KEYS / " +:+
           "CHECKBOX_KEYS / dsb.")
  else
    let addresses := read_addresses o (ADDRESS_FILE c) in
    if bool_decide (addresses = []) then
      print ("[ERROR] " +:+ ADDRESS_FILE c +:+ " kosong atau tidak ditemukan")
    else
      s ← mk_session c;
      with_open_w o (OUTPUT_CSV c)
        (emit (WriteHeader csv_fieldnames);;
         process_records c o s (length addresses) 1 addresses);;
      print ("Selesai. Lihat " +:+ OUTPUT_CSV c).

(** ** Views of a run *)

(** The rows written to the log, oldest first. *)
Definition log_rows (evs : list event) : list Row :=
  omap (λ ev, match ev with WriteRow r => Some r | _ => None end) evs.

(** The POSTs among the events. *)
Definition is_post (ev : event) : bool :=
  match ev with Post _ _ _ _ => true | _ => false end.

(** ** Vocabulary of the specification *)

(** [[k]] when the guard of an assignment holds, nothing otherwise. *)
Definition key_if (cond : bool) (k : string) : list string :=
  if cond then [k] else [].

(** The keys a flag block writes. *)
Definition flag_keys (entry sentinel : string) : list string :=
  key_if (PyStr.truthy entry) entry
  ++ key_if (PyStr.truthy entry && PyStr.truthy sentinel) sentinel.

(** The keys of the fixed protocol parameters that are written. *)
Definition protocol_keys (c : Config) : list string :=
  key_if (PyStr.truthy (FVV c)) "fvv"
  ++ key_if (PyStr.truthy (PAGE_HISTORY c)) "pageHistory"
  ++ key_if (PyStr.truthy (FBZX c)) "fbzx"
  ++ key_if (PyStr.truthy (PARTIAL_RESPONSE c) || PyStr.truthy (FBZX c))
       "partialResponse".

(** The keys of the extra fields. *)
Definition extra_keys (c : Config) : list string :=
  (map_to_list (EXTRA_FIELDS c)).*1.

(** The keys written after the checkbox loop, which take precedence over
    it. *)
Definition keys_after_checkboxes (c : Config) : list string :=
  flag_keys (ENTRY_YES c) (ENTRY_YES_SENTINEL c)
  ++ flag_keys (ENTRY_DONE c) (ENTRY_DONE_SENTINEL c)
  ++ extra_keys c ++ protocol_keys c.

(** The keys written before the checkbox loop. *)
Definition keys_before_checkboxes (c : Config) (username address : string)
    : list string :=
  key_if (PyStr.truthy (ENTRY_USERNAME c) && PyStr.truthy username)
    (ENTRY_USERNAME c)
  ++ key_if (PyStr.truthy (ENTRY_ADDRESS c) && PyStr.truthy address)
       (ENTRY_ADDRESS c)
  ++ ADDRESS_KEYS c.

(** Every key that a setting names itself: all that [build_payload] writes
    apart from the sentinel companions it makes up for checkboxes. *)
Definition named_keys (c : Config) (username address : string) : list string :=
  keys_before_checkboxes c username address
  ++ CHECKBOX_KEYS c ++ keys_after_checkboxes c.

(** The payload as it stands when the checkbox loop starts, and what the
    statements after the loop make of a payload. *)
Definition payload_before_checkboxes (c : Config) (username address : string)
    : gmap string string :=
  set_address_keys (ADDRESS_KEYS c) address
    (assign_if (PyStr.truthy (ENTRY_ADDRESS c) && PyStr.truthy address)
       (ENTRY_ADDRESS c) address
       (assign_if (PyStr.truthy (ENTRY_USERNAME c) && PyStr.truthy username)
          (ENTRY_USERNAME c) username ∅)).

Definition effective_partial_response (c : Config) : string :=
  if negb (PyStr.truthy (PARTIAL_RESPONSE c)) && PyStr.truthy (FBZX c)
  then derived_partial_response (FBZX c) else PARTIAL_RESPONSE c.

Definition payload_after_extras (c : Config) (payload : gmap string string)
    : gmap string string :=
  assign_if (PyStr.truthy (effective_partial_response c)) "partialResponse"
    (effective_partial_response c)
    (assign_if (PyStr.truthy (FBZX c)) "fbzx" (FBZX c)
       (assign_if (PyStr.truthy (PAGE_HISTORY c)) "pageHistory"
          (PAGE_HISTORY c)
          (assign_if (PyStr.truthy (FVV c)) "fvv" (FVV c) payload))).

Definition payload_after_checkboxes (c : Config)
    (payload : gmap string string) : gmap string string :=
  payload_after_extras c
    (set_extra_fields (EXTRA_FIELDS c)
       (set_flag (ENTRY_DONE c) (VALUE_DONE c) (ENTRY_DONE_SENTINEL c)
          (set_flag (ENTRY_YES c) (VALUE_YES c) (ENTRY_YES_SENTINEL c)
             payload))).

(** The warning [submit_with_retries] prints after a failed attempt. *)
Definition warn_line (c : Config) (attempt : Z) (e : exn) : string :=
  "[WARN] attempt " +:+ pretty attempt +:+ "/" +:+ pretty (MAX_RETRIES c)
  +:+ " failed: " +:+ exn_str e.

(** The row the [try] statement of the loop writes for each outcome of the
    submission. *)
Definition row_for (ts username addr : string) (r : result Response) : Row :=
  match r with
  | Returns resp =>
      {| row_timestamp := ts; row_username := username; row_address := addr;
         row_status_code := CInt (status_code resp);
         row_ok := status_ok (status_code resp);
         row_resp_snippet :=
           PyStr.replace_char PyStr.newline " "
             (PyStr.take 400 (text resp)) |}
  | Raises e =>
      {| row_timestamp := ts; row_username := username; row_address := addr;
         row_status_code := CStr "ERR"; row_ok := false;
         row_resp_snippet := PyStr.take 400 (exn_str e) |}
  end.

(** *** The cookie mapping as the specification words it *)

(** The part of [s] before its first [sep] (all of [s] when there is
    none), and the part after it. *)
Fixpoint before_first (sep : ascii) (s : string) : string :=
  match s with
  | EmptyString => EmptyString
  | String c s' =>
      if Ascii.eqb c sep then EmptyString else String c (before_first sep s')
  end.

Fixpoint after_first (sep : ascii) (s : string) : string :=
  match s with
  | EmptyString => EmptyString
  | String c s' => if Ascii.eqb c sep then s' else after_first sep s'
  end.

(** The name and the value [mk_session] takes from a piece that has an
    [=]. *)
Definition cookie_name_value (piece : string) : string * string :=
  (PyStr.strip (before_first "=" piece), PyStr.strip (after_first "=" piece)).

(** White space, by code point: the controls TAB to CR and FS to US, the
    space, NEL and the no-break space. *)
Definition whitespace_codes : list nat :=
  [9; 10; 11; 12; 13; 28; 29; 30; 31; 32; 133; 160]%nat.

Definition is_whitespace (ch : ascii) : bool :=
  bool_decide (nat_of_ascii ch ∈ whitespace_codes).

(** Trimming, on the list of the characters of a string: the white space
    in front is dropped, and then the white space at the end, which is in
    front once the list is reversed. *)
Fixpoint drop_whitespace (l : list ascii) : list ascii :=
  match l with
  | [] => []
  | ch :: l' => if is_whitespace ch then drop_whitespace l' else l
  end.

Definition trimmed (s : string) : string :=
  string_of_list_ascii
    (reverse (drop_whitespace
       (reverse (drop_whitespace (list_ascii_of_string s))))).

(** The pieces of a string between the occurrences of [sep], read from the
    left; [current] holds the characters of the piece being read, the last
    one first. *)
Fixpoint pieces_from (sep : ascii) (current l : list ascii) : list string :=
  match l with
  | [] => [string_of_list_ascii (reverse current)]
  | ch :: l' =>
      if bool_decide (ch = sep)
      then string_of_list_ascii (reverse current) :: pieces_from sep [] l'
      else pieces_from sep (ch :: current) l'
  end.

Definition pieces (sep : ascii) (s : string) : list string :=
  pieces_from sep [] (list_ascii_of_string s).

(** The cookie mapping in the words of the specification: split on [;],
    trim, drop the empty pieces and those without [=], cut each remaining
    piece at its first [=] and trim both sides; a name given twice keeps
    its last value. *)
Definition trimmed_name_value (piece : string) : string * string :=
  (trimmed (before_first "=" piece), trimmed (after_first "=" piece)).

Definition cookies_by_the_text (raw : string) : gmap string string :=
  list_to_map
    (reverse
       (trimmed_name_value <$>
          filter (λ p, "="%char ∈ list_ascii_of_string p)
            (filter (λ p, p ≠ EmptyString)
               (trimmed <$> pieces ";" raw)))).

(** What is left of a list of characters once every backslash that a
    double quote follows is removed together with that quote; [pending]
    says that a backslash has been read and is not written yet. *)
Fixpoint without_escaped_quotes (pending : bool) (l : list ascii)
    : list ascii :=
  match l with
  | [] => if pending then [PyStr.backslash] else []
  | ch :: l' =>
      if bool_decide (ch = PyStr.backslash) then
        (if pending then [PyStr.backslash] else [])
        ++ without_escaped_quotes true l'
      else if bool_decide (ch = PyStr.dquote) && pending then
        without_escaped_quotes false l'
      else
        (if pending then [PyStr.backslash] else [])
        ++ ch :: without_escaped_quotes false l'
  end.

(** A cookie value as the session presents it: a value wrapped in double
    quotes has lost its escaped quotes, any other value is as given. *)
Definition presented_value (v : string) : string :=
  let l := list_ascii_of_string v in
  if bool_decide (head l = Some PyStr.dquote ∧ last l = Some PyStr.dquote)
  then string_of_list_ascii (without_escaped_quotes false l)
  else v.

(** *** Sleeping and opening the log *)


(** ** Sample settings, files and network behaviour *)

(** A [.env] holding the given lines, an empty process environment and the
    default numeric settings. *)
Definition env_of (l : list (string * string)) : environment :=
  {| ENV := list_to_map l; os_environ := ∅ |}.

Definition config_of (l : list (string * string)) : Config :=
  load_config (env_of l) default_numeric.

Definition env_one_address_field : list (string * string) :=
  [("FORM_RESPONSE_URL", "https://forms.example/formResponse");
   ("ENTRY_ADDRESS", "entry.1")].

Definition env_no_field : list (string * string) :=
  [("FORM_RESPONSE_URL", "https://forms.example/formResponse")].

Definition env_missing_address_file : list (string * string) :=
  [("FORM_RESPONSE_URL", "https://forms.example/formResponse");
   ("ENTRY_ADDRESS", "entry.1"); ("ADDRESS_FILE", "missing.txt")].

Definition env_two_cookies : list (string * string) :=
  [("FORM_RESPONSE_URL", "https://forms.example/formResponse");
   ("SESSION_COOKIES", "a=1; b=2")].

(** The value made of a double quote, [x], a backslash, a double quote,
    [y] and a double quote; and the same without the backslash and the
    quote after it. *)
Definition quoted_with_escape : string :=
  String PyStr.dquote
    ("x" +:+ String PyStr.backslash
               (String PyStr.dquote ("y" +:+ String PyStr.dquote EmptyString))).

Definition quoted_without_escape : string :=
  String PyStr.dquote ("xy" +:+ String PyStr.dquote EmptyString).

(** A first cookie with the quoted value, then [b=2]. *)
Definition env_quoted_cookie : list (string * string) :=
  [("FORM_RESPONSE_URL", "https://forms.example/formResponse");
   ("SESSION_COOKIES", "a=" +:+ quoted_with_escape +:+ "; b=2")].

Definition env_fbzx_xyz : list (string * string) :=
  [("ENTRY_ADDRESS", "entry.1"); ("FBZX", "xyz")].

Definition env_partial_override : list (string * string) :=
  [("ENTRY_ADDRESS", "entry.1"); ("FBZX", "xyz");
   ("PARTIAL_RESPONSE", "[1,2]")].

Definition env_checkbox_plain : list (string * string) :=
  [("CHECKBOX_KEYS", "A,B")].

Definition env_checkbox_no_sentinel : list (string * string) :=
  [("CHECKBOX_KEYS", "A,B"); ("AUTO_SENTINEL_FOR_CHECKBOX", "no")].

(** The yes flag is given the identifier of the first checkbox. *)
Definition env_checkbox_overridden : list (string * string) :=
  [("CHECKBOX_KEYS", "A,B"); ("ENTRY_YES", "A")].

(** No automatic sentinels, but an address field is called [A_sentinel]. *)
Definition env_sentinel_named_elsewhere : list (string * string) :=
  [("CHECKBOX_KEYS", "A,B"); ("AUTO_SENTINEL_FOR_CHECKBOX", "0");
   ("ADDRESS_KEYS", "A_sentinel")].

(** [FBZX] and [ENTRY_YES] are left out; an extra field is called [fbzx]
    and the sentinel named for the yes flag is the one of a checkbox. *)
Definition env_unset_yet_present : list (string * string) :=
  [("EXTRA_FIELD_1_KEY", "fbzx"); ("EXTRA_FIELD_1_VALUE", "abc");
   ("ENTRY_YES_SENTINEL", "entry.1_sentinel"); ("CHECKBOX_KEYS", "entry.1")].

(** The first extra field is called [fvv]; the second and the third share
    one key. *)
Definition env_extras_shadowed : list (string * string) :=
  [("EXTRA_FIELD_1_KEY", "fvv"); ("EXTRA_FIELD_1_VALUE", "2");
   ("EXTRA_FIELD_2_KEY", "entry.7"); ("EXTRA_FIELD_2_VALUE", "first");
   ("EXTRA_FIELD_3_KEY", "entry.7"); ("EXTRA_FIELD_3_VALUE", "second")].

Definition env_extra_without_value : list (string * string) :=
  [("EXTRA_FIELD_4_KEY", "entry.9")].



(** [OUTPUT_CSV=] in the settings: the empty path. *)
Definition env_no_output_path : list (string * string) :=
  [("FORM_RESPONSE_URL", "https://forms.example/formResponse");
   ("ENTRY_ADDRESS", "entry.1"); ("OUTPUT_CSV", EmptyString)].

Definition no_retries : numeric_settings :=
  {| delay_seconds := Finite 2; max_retries := 0; timeout := 30 |}.

(** An address file of two lines. *)
Definition two_addresses : string :=
  "0xaaa" +:+ String PyStr.newline ("0xbbb" +:+ String PyStr.newline EmptyString).

(** A network that answers every POST the same way. *)
Definition oracle_answering (out : post_outcome) : Oracle :=
  {| http_post := λ _, out;
     utcnow_isoformat := λ _, "2025-01-01T00:00:00";
     random_draw := λ n, Z.of_nat n;
     files := {[ "address.txt" := two_addresses ]};
     open_error := λ _, None;
     sleep_error := λ _, None |}.

Definition response_200 : Response := {| status_code := 200; text := "ok" |}.

Definition connection_error : exn :=
  {| exn_cls := RequestException; exn_str := "connection refused" |}.

Definition plain_session : Session := {| headers := ∅; cookies := ∅ |}.

(** ** The settings file, and more vocabulary *)

(** [sep.join(items)] for a one-character [sep]. *)
Fixpoint join (sep : ascii) (items : list string) : string :=
  match items with
  | [] => EmptyString
  | [x] => x
  | x :: rest => x +:+ String sep (join sep rest)
  end.

(** A text file holding one line per item, each ended by a line feed. *)
Fixpoint unlines (items : list string) : string :=
  match items with
  | [] => EmptyString
  | x :: rest => x +:+ String PyStr.newline (unlines rest)
  end.

(** [s.lstrip(q)], [s.rstrip(q)] and [s.strip(q)] for a one-character
    [q]. *)
Fixpoint lstrip_char (q : ascii) (s : string) : string :=
  match s with
  | EmptyString => EmptyString
  | String c s' => if Ascii.eqb c q then lstrip_char q s' else s
  end.

Fixpoint rstrip_char (q : ascii) (s : string) : string :=
  match s with
  | EmptyString => EmptyString
  | String c s' =>
      let r := rstrip_char q s' in
      if Ascii.eqb c q && negb (PyStr.truthy r) then EmptyString
      else String c r
  end.

Definition strip_char (q : ascii) (s : string) : string :=
  rstrip_char q (lstrip_char q s).

(** The apostrophe, code point 39. *)
Definition apostrophe : ascii := ascii_of_nat 39.

(** One iteration of the loop of [load_env] over the lines of the file;
    [raw] is the line with or without its line end, which [strip] removes
    either way. *)
Definition load_env_line (env : gmap string string) (raw : string)
    : gmap string string :=
  let line := PyStr.strip raw in
  if negb (PyStr.truthy line) || startswith_char "#" line then env
  else if negb (PyStr.contains "=" line) then env
  else
    match PyStr.split1 "=" line with
    | [k; v] =>
        let k := PyStr.strip k in
        let v := strip_char apostrophe
                   (strip_char PyStr.dquote (PyStr.strip v)) in
        <[k := v]> env
    | _ => env
    end.

(** [load_env] *)
Definition load_env (o : Oracle) (path : string) : gmap string string :=
  match files o !! path with
  | None => ∅
  | Some content => foldl load_env_line ∅ (file_lines content)
  end.

(** The sources [getenv] consults in a run: [ENV = load_env(".env")] and
    the process environment. *)
Definition script_environment (o : Oracle) (environ : gmap string string)
    : environment :=
  {| ENV := load_env o ".env"; os_environ := environ |}.

(** A line [KEY=VALUE]. *)
Definition assignment_line (k v : string) : string := k +:+ String "=" v.

(** What [load_env] leaves of a key, and of a value, unchanged. *)
Definition clean_env_key (k : string) : Prop :=
  PyStr.strip k = k ∧ PyStr.contains "=" k = false
  ∧ startswith_char "#" k = false.

Definition clean_env_value (v : string) : Prop :=
  PyStr.strip v = v ∧ strip_char PyStr.dquote v = v
  ∧ strip_char apostrophe v = v.

Definition no_line_end (s : string) : Prop :=
  PyStr.contains PyStr.newline s = false
  ∧ PyStr.contains PyStr.carriage_return s = false.

(** The lengths of the sleeps among the events, oldest first. *)
Definition slept (evs : list event) : list Q :=
  omap (λ ev, match ev with Sleep secs => Some secs | _ => None end) evs.

(** The sleeps of the retry loop after [k] failed attempts in a row, the
    first of them numbered [attempt]. *)
Definition backoff (attempt : Z) (k : nat) : list Q :=
  (λ i : nat, inject_Z (1 + (attempt + Z.of_nat i))) <$> seq 0 k.

(** The POSTs from index [first] on, [k] of them, all fail at transport
    level. *)
Definition transport_failures (o : Oracle) (first k : nat) : Prop :=
  ∀ i, (i < k)%nat →
    ∃ e, http_post o (first + i) = Fails e ∧ is_request_exception e = true.

(** What [submit_with_retries] may add to the events: prints, sleeps and
    POSTs of the payload to the target URL. *)
Definition submit_event (c : Config) (s : Session)
    (payload : gmap string string) (ev : event) : Prop :=
  match ev with
  | Print _ | Sleep _ => True
  | Post s' url data tmo =>
      s' = s ∧ url = FORM_RESPONSE_URL c ∧ data = payload ∧ tmo = TIMEOUT c
  | _ => False
  end.

(** What the loop over the records may add: prints, sleeps, rows for the
    records, and POSTs of a payload built for one of the records. *)
Definition record_event (c : Config) (s : Session) (addresses : list string)
    (ev : event) : Prop :=
  match ev with
  | Print _ | Sleep _ => True
  | Post s' url data tmo =>
      s' = s ∧ url = FORM_RESPONSE_URL c ∧ tmo = TIMEOUT c
      ∧ ∃ username addr,
          addr ∈ addresses ∧ data = build_payload c username addr
  | WriteRow r => row_address r ∈ addresses
  | OpenW _ | WriteHeader _ | Close _ => False
  end.

(** A decimal digit. *)
Definition is_digit (ch : ascii) : bool :=
  let n := nat_of_ascii ch in (48 <=? n)%nat && (n <=? 57)%nat.

(** The world [w'] extends [w] by events that all satisfy [P]. *)
Definition grows_by (P : event → Prop) (w w' : World) : Prop :=
  ∃ evs, events w' = (events w ++ evs)%list ∧ Forall P evs.

(** The world after one more event. *)
Definition after_event (w : World) (ev : event) : World :=
  snd (emit ev w).

(** A run that passes the three checks at the start of [main]. *)
Definition validated (c : Config) (o : Oracle) : Prop :=
  FORM_RESPONSE_URL c ≠ EmptyString
  ∧ any_field_configured c = true
  ∧ read_addresses o (ADDRESS_FILE c) ≠ [].

(** Opening, heading and closing the log. *)
Definition is_log_io (ev : event) : bool :=
  match ev with
  | OpenW _ | WriteHeader _ | Close _ => true
  | _ => false
  end.

Definition is_print (ev : event) : bool :=
  match ev with Print _ => true | _ => false end.

(** The last line [main] prints. *)
Definition done_line (c : Config) : string := "Selesai. Lihat " +:+ OUTPUT_CSV c.

(** A disk holding only a [.env] file. *)
Definition oracle_with_env (content : string) : Oracle :=
  {| http_post := λ _, Fails connection_error;
     utcnow_isoformat := λ _, "2025-01-01T00:00:00";
     random_draw := λ n, Z.of_nat n;
     files := {[ ".env" := content ]};
     open_error := λ _, None;
     sleep_error := λ _, None |}.

Definition sample_env_lines : list string :=
  ["# settings"; "FVV = 0"; "ENTRY_ADDRESS='entry.1'"; "no assignment here"].

(** A network whose first [k] POSTs fail at transport level and which
    answers 200 from then on. *)
Definition oracle_failing_first (k : nat) : Oracle :=
  {| http_post := λ n, if (n <? k)%nat then Fails connection_error
                       else Responds response_200;
     utcnow_isoformat := λ _, "2025-01-01T00:00:00";
     random_draw := λ n, Z.of_nat n;
     files := {[ "address.txt" := two_addresses ]};
     open_error := λ _, None;
     sleep_error := λ _, None |}.

(** An exception that is not a [RequestException]. *)
Definition encoding_error : exn :=
  {| exn_cls := OtherException; exn_str := "codec can't encode character" |}.

Definition three_retries : numeric_settings :=
  {| delay_seconds := Finite 2; max_retries := 3; timeout := 30 |}.

(** * Properties *)

(** ** Strings *)

Lemma truthy_true (s : string) : PyStr.truthy s = true ↔ s ≠ EmptyString.
Proof. destruct s; simpl; split; congruence. Qed.

Lemma truthy_false (s : string) : PyStr.truthy s = false ↔ s = EmptyString.
Proof. destruct s; simpl; split; congruence. Qed.

(** ** The payload, statement by statement *)

Lemma insert_is_Some_or (p : gmap string string) x v k :
  is_Some (<[x := v]> p !! k) ↔ k = x ∨ is_Some (p !! k).
Proof.
  rewrite lookup_insert_is_Some. split.
  - intros [->|[_ ?]]; [by left | by right].
  - intros [->|?]; [by left |].
    destruct (decide (x = k)); [by left | by right].
Qed.

Lemma lookup_assign_if b x v (p : gmap string string) k :
  assign_if b x v p !! k
  = if b && bool_decide (k = x) then Some v else p !! k.
Proof.
  unfold assign_if. destruct b; simpl; [|done].
  case_bool_decide as H.
  - subst. apply lookup_insert_eq.
  - by rewrite lookup_insert_ne.
Qed.

Lemma assign_if_is_Some b x v (p : gmap string string) k :
  is_Some (assign_if b x v p !! k) ↔ k ∈ key_if b x ∨ is_Some (p !! k).
Proof.
  unfold assign_if, key_if. destruct b.
  - rewrite insert_is_Some_or, list_elem_of_singleton. done.
  - split; [by right|]. intros [H|?]; [inversion H | done].
Qed.

Lemma lookup_assign_if_ne b x v (p : gmap string string) k :
  k ∉ key_if b x → assign_if b x v p !! k = p !! k.
Proof.
  unfold assign_if, key_if. destruct b; [|done].
  intros H. apply lookup_insert_ne. intros ->. apply H. by left.
Qed.

Lemma elem_of_key_if b x (k : string) : k ∈ key_if b x ↔ b = true ∧ k = x.
Proof.
  unfold key_if. destruct b.
  - rewrite list_elem_of_singleton. tauto.
  - split; [intros H; inversion H | intros [? _]; done].
Qed.

Lemma set_flag_is_Some entry value sentinel (p : gmap string string) k :
  is_Some (set_flag entry value sentinel p !! k)
  ↔ k ∈ flag_keys entry sentinel ∨ is_Some (p !! k).
Proof.
  unfold set_flag, flag_keys. destruct (PyStr.truthy entry); simpl.
  - rewrite assign_if_is_Some, insert_is_Some_or.
    rewrite elem_of_cons. tauto.
  - split; [by right|]. intros [H|?]; [inversion H | done].
Qed.

Lemma lookup_set_flag_ne entry value sentinel (p : gmap string string) k :
  k ∉ flag_keys entry sentinel → set_flag entry value sentinel p !! k = p !! k.
Proof.
  unfold set_flag, flag_keys. destruct (PyStr.truthy entry); simpl; [|done].
  intros H. rewrite lookup_assign_if_ne.
  - apply lookup_insert_ne. intros ->. apply H. by left.
  - intros ?. apply H. by right.
Qed.

Lemma set_address_keys_lookup keys a (p : gmap string string) k :
  set_address_keys keys a p !! k
  = if decide (k ∈ keys) then Some a else p !! k.
Proof.
  unfold set_address_keys. revert p.
  induction keys as [|x keys IH]; intros p; simpl.
  - destruct (decide (k ∈ [])) as [H|H]; [inversion H | done].
  - rewrite IH. destruct (decide (k ∈ keys)) as [Hin|Hnin].
    + rewrite decide_True; [done | by right].
    + destruct (decide (x = k)) as [->|Hne].
      * rewrite lookup_insert_eq, decide_True; [done | by left].
      * rewrite lookup_insert_ne by done.
        rewrite decide_False; [done |].
        intros [->|?]%elem_of_cons; done.
Qed.

Lemma set_checkbox_keys_is_Some keys v auto (p : gmap string string) k :
  is_Some (set_checkbox_keys keys v auto p !! k)
  ↔ is_Some (p !! k) ∨ k ∈ keys
    ∨ (auto = true ∧ ∃ x, x ∈ keys ∧ k = x +:+ "_sentinel").
Proof.
  unfold set_checkbox_keys. revert p.
  induction keys as [|x keys IH]; intros p; simpl.
  - split; [by left |]. intros [?|[H|(_ & y & H & _)]]; [done | |];
      inversion H.
  - rewrite IH. unfold set_checkbox.
    destruct auto; rewrite ?insert_is_Some_or; split.
    + intros [[Hk|[Hk|?]]|[?|(_ & y & ? & Hk)]].
      * right; right. split; [done|]. exists x. split; [by left|done].
      * right; left. subst; by left.
      * by left.
      * right; left. by right.
      * right; right. split; [done|]. exists y. split; [by right|done].
    + intros [?|[[Hk|?]%elem_of_cons|(_ & y & [Hy|?]%elem_of_cons & Hk)]].
      * left; right; by right.
      * left; right; by left.
      * right; by left.
      * subst y. left; by left.
      * right; right. split; [done|]. by exists y.
    + intros [[Hk|?]|[?|(? & _)]]; try done.
      * right; left. subst; by left.
      * by left.
      * right; left; by right.
    + intros [?|[[Hk|?]%elem_of_cons|(? & _)]]; try done.
      * left; by right.
      * left; by left.
      * right; by left.
Qed.

Lemma set_extra_fields_union (extras p : gmap string string) :
  set_extra_fields extras p = extras ∪ p.
Proof.
  unfold set_extra_fields.
  rewrite <- (list_to_map_to_list extras) at 2.
  generalize (NoDup_fst_map_to_list extras).
  generalize (map_to_list extras). intros l. revert p.
  induction l as [|[k v] l IH]; intros p Hnd; simpl.
  - by rewrite (left_id_L ∅ (∪)).
  - apply NoDup_cons in Hnd as [Hk Hnd]. rewrite IH by done.
    rewrite <- insert_union_r, insert_union_l; [done |].
    by apply not_elem_of_list_to_map_1.
Qed.

Lemma elem_of_extra_keys c k : k ∈ extra_keys c ↔ is_Some (EXTRA_FIELDS c !! k).
Proof.
  unfold extra_keys. rewrite list_elem_of_fmap. split.
  - intros [[k' v] [-> H%elem_of_map_to_list]]. by exists v.
  - intros [v H]. exists (k, v). split; [done|]. by apply elem_of_map_to_list.
Qed.

Lemma build_payload_stages c u a :
  build_payload c u a
  = payload_after_checkboxes c
      (set_checkbox_keys (CHECKBOX_KEYS c) (CHECKBOX_VALUE c)
         (AUTO_SENTINEL_FOR_CHECKBOX c) (payload_before_checkboxes c u a)).
Proof. reflexivity. Qed.

Lemma payload_before_checkboxes_is_Some c u a k :
  is_Some (payload_before_checkboxes c u a !! k)
  ↔ k ∈ keys_before_checkboxes c u a.
Proof.
  unfold payload_before_checkboxes, keys_before_checkboxes.
  rewrite set_address_keys_lookup, !elem_of_app.
  destruct (decide (k ∈ ADDRESS_KEYS c)) as [Hin|Hnin].
  - split; [by right; right | by eexists].
  - rewrite !assign_if_is_Some, lookup_empty.
    split; [intros [?|[?|[? ?]]]; [tauto|tauto|done] | tauto].
Qed.

Lemma payload_after_extras_is_Some c (p : gmap string string) k :
  is_Some (payload_after_extras c p !! k)
  ↔ k ∈ protocol_keys c ∨ is_Some (p !! k).
Proof.
  unfold payload_after_extras, protocol_keys.
  rewrite !assign_if_is_Some, !elem_of_app.
  replace (PyStr.truthy (effective_partial_response c))
    with (PyStr.truthy (PARTIAL_RESPONSE c) || PyStr.truthy (FBZX c)).
  - tauto.
  - unfold effective_partial_response.
    destruct (PARTIAL_RESPONSE c), (FBZX c); reflexivity.
Qed.

Lemma lookup_payload_after_extras_ne c (p : gmap string string) k :
  k ∉ protocol_keys c → payload_after_extras c p !! k = p !! k.
Proof.
  unfold payload_after_extras, protocol_keys.
  rewrite !not_elem_of_app. intros (Hf & Hp & Hz & Hr).
  assert (key_if (PyStr.truthy (effective_partial_response c)) "partialResponse"
          = key_if (PyStr.truthy (PARTIAL_RESPONSE c) || PyStr.truthy (FBZX c))
              "partialResponse") as Hpr.
  { unfold effective_partial_response.
    destruct (PARTIAL_RESPONSE c), (FBZX c); reflexivity. }
  by rewrite !lookup_assign_if_ne by (rewrite ?Hpr; done).
Qed.

Lemma payload_after_checkboxes_is_Some c (p : gmap string string) k :
  is_Some (payload_after_checkboxes c p !! k)
  ↔ k ∈ keys_after_checkboxes c ∨ is_Some (p !! k).
Proof.
  unfold payload_after_checkboxes, keys_after_checkboxes.
  rewrite payload_after_extras_is_Some, set_extra_fields_union.
  rewrite lookup_union_is_Some, !set_flag_is_Some, !elem_of_app.
  rewrite elem_of_extra_keys. tauto.
Qed.

Lemma lookup_payload_after_checkboxes_ne c (p : gmap string string) k :
  k ∉ keys_after_checkboxes c → payload_after_checkboxes c p !! k = p !! k.
Proof.
  unfold keys_after_checkboxes, payload_after_checkboxes, payload_after_extras,
    protocol_keys.
  rewrite !not_elem_of_app. intros (Hy & Hd & He & Hf & Hp & Hz & Hr).
  assert (key_if (PyStr.truthy (effective_partial_response c)) "partialResponse"
          = key_if (PyStr.truthy (PARTIAL_RESPONSE c) || PyStr.truthy (FBZX c))
              "partialResponse") as Hpr.
  { unfold effective_partial_response.
    destruct (PARTIAL_RESPONSE c), (FBZX c); reflexivity. }
  rewrite !lookup_assign_if_ne by (rewrite ?Hpr; done).
  rewrite set_extra_fields_union, lookup_union_r.
  - by rewrite !lookup_set_flag_ne.
  - rewrite elem_of_extra_keys in He. by apply eq_None_not_Some.
Qed.

(** A key is in the payload exactly when a populated setting names it or
    it is the automatic sentinel of a checkbox. *)
Lemma build_payload_is_Some c u a k :
  is_Some (build_payload c u a !! k)
  ↔ k ∈ named_keys c u a
    ∨ (AUTO_SENTINEL_FOR_CHECKBOX c = true
       ∧ ∃ x, x ∈ CHECKBOX_KEYS c ∧ k = x +:+ "_sentinel").
Proof.
  rewrite build_payload_stages, payload_after_checkboxes_is_Some.
  rewrite set_checkbox_keys_is_Some, payload_before_checkboxes_is_Some.
  unfold named_keys. rewrite !elem_of_app. tauto.
Qed.

Lemma lookup_partial_response c u a :
  build_payload c u a !! "partialResponse"
  = if PyStr.truthy (effective_partial_response c)
    then Some (effective_partial_response c)
    else payload_after_checkboxes c
           (set_checkbox_keys (CHECKBOX_KEYS c) (CHECKBOX_VALUE c)
              (AUTO_SENTINEL_FOR_CHECKBOX c)
              (payload_before_checkboxes c u a)) !! "partialResponse".
Proof.
  rewrite build_payload_stages.
  unfold payload_after_checkboxes at 1, payload_after_extras at 1.
  rewrite lookup_assign_if.
  destruct (PyStr.truthy (effective_partial_response c)) eqn:Hpr; simpl.
  - done.
  - unfold payload_after_checkboxes, payload_after_extras, assign_if.
    by rewrite Hpr.
Qed.

Lemma lookup_extra_field c u a k v :
  EXTRA_FIELDS c !! k = Some v → k ∉ protocol_keys c →
  build_payload c u a !! k = Some v.
Proof.
  intros Hk Hfree. rewrite build_payload_stages.
  unfold payload_after_checkboxes.
  rewrite lookup_payload_after_extras_ne by done.
  rewrite set_extra_fields_union. by apply lookup_union_Some_l.
Qed.

(** ** The extra fields read from the environment *)

Lemma extra_fields_foldl_ne e l (m : gmap string string) k :
  (∀ j, j ∈ l → extra_field_key e j ≠ k) →
  foldl (extra_fields_step e) m l !! k = m !! k.
Proof.
  revert m. induction l as [|j l IH]; intros m Hne; simpl; [done|].
  rewrite IH by (intros j' ?; apply Hne; by right).
  unfold extra_fields_step. destruct (PyStr.truthy _); [|done].
  apply lookup_insert_ne. apply Hne. by left.
Qed.

Lemma extra_fields_foldl_is_Some e l (m : gmap string string) k :
  is_Some (m !! k) → is_Some (foldl (extra_fields_step e) m l !! k).
Proof.
  revert m. induction l as [|j l IH]; intros m Hm; simpl; [done|].
  apply IH. unfold extra_fields_step. destruct (PyStr.truthy _); [|done].
  apply insert_is_Some_or. by right.
Qed.

Lemma seq_split_at (i max_n : nat) :
  (1 ≤ i ≤ max_n)%nat →
  seq 1 max_n = (seq 1 (i - 1) ++ i :: seq (S i) (max_n - i))%list.
Proof.
  intros Hi. replace max_n with ((i - 1) + S (max_n - i))%nat at 1 by lia.
  rewrite seq_app. simpl. replace (S (i - 1)) with i by lia. done.
Qed.

Lemma extra_fields_from_env_is_Some e max_n i :
  (1 ≤ i ≤ max_n)%nat → extra_field_key e i ≠ EmptyString →
  is_Some (extra_fields_from_env e max_n !! extra_field_key e i).
Proof.
  intros Hi Hk. unfold extra_fields_from_env.
  rewrite (seq_split_at i max_n Hi), foldl_app. simpl.
  apply extra_fields_foldl_is_Some. unfold extra_fields_step at 1.
  apply truthy_true in Hk. rewrite Hk. rewrite lookup_insert_eq. by eexists.
Qed.

Lemma extra_fields_from_env_lookup e max_n i :
  (1 ≤ i ≤ max_n)%nat → extra_field_key e i ≠ EmptyString →
  (∀ j, (i < j ≤ max_n)%nat → extra_field_key e j ≠ extra_field_key e i) →
  extra_fields_from_env e max_n !! extra_field_key e i
  = Some (extra_field_value e i).
Proof.
  intros Hi Hk Hlater. unfold extra_fields_from_env.
  rewrite (seq_split_at i max_n Hi), foldl_app. simpl.
  rewrite extra_fields_foldl_ne.
  - unfold extra_fields_step at 1. apply truthy_true in Hk. rewrite Hk.
    apply lookup_insert_eq.
  - intros j Hj. apply Hlater. apply elem_of_seq in Hj. lia.
Qed.

(** Decide a closed proposition by evaluation. *)
Ltac decide_closed := apply (bool_decide_unpack _); vm_compute; exact I.

(** ** Which keys the payload holds *)

(** C4, as amended.  For every username and record value, a key is in the
    built payload exactly when a populated setting writes it: the username
    and legacy address fields (set, and with a non-empty value to send), the
    address and checkbox keys, the automatic checkbox sentinels, the yes and
    done flags and their sentinels (the sentinel only under a set flag), the
    extra fields, [fvv], [pageHistory], [fbzx], and [partialResponse] when
    the override or [FBZX] is set.  An unset setting contributes no key; the
    key it would name is present only if another populated setting names
    the same key. *)
Theorem build_payload_keys_from_populated_settings c username address k :
  is_Some (build_payload c username address !! k)
  ↔ (ENTRY_USERNAME c ≠ EmptyString ∧ username ≠ EmptyString
     ∧ k = ENTRY_USERNAME c)
    ∨ (ENTRY_ADDRESS c ≠ EmptyString ∧ address ≠ EmptyString
       ∧ k = ENTRY_ADDRESS c)
    ∨ k ∈ ADDRESS_KEYS c
    ∨ k ∈ CHECKBOX_KEYS c
    ∨ (AUTO_SENTINEL_FOR_CHECKBOX c = true
       ∧ ∃ x, x ∈ CHECKBOX_KEYS c ∧ k = x +:+ "_sentinel")
    ∨ (ENTRY_YES c ≠ EmptyString ∧ k = ENTRY_YES c)
    ∨ (ENTRY_YES c ≠ EmptyString ∧ ENTRY_YES_SENTINEL c ≠ EmptyString
       ∧ k = ENTRY_YES_SENTINEL c)
    ∨ (ENTRY_DONE c ≠ EmptyString ∧ k = ENTRY_DONE c)
    ∨ (ENTRY_DONE c ≠ EmptyString ∧ ENTRY_DONE_SENTINEL c ≠ EmptyString
       ∧ k = ENTRY_DONE_SENTINEL c)
    ∨ is_Some (EXTRA_FIELDS c !! k)
    ∨ (FVV c ≠ EmptyString ∧ k = "fvv")
    ∨ (PAGE_HISTORY c ≠ EmptyString ∧ k = "pageHistory")
    ∨ (FBZX c ≠ EmptyString ∧ k = "fbzx")
    ∨ ((PARTIAL_RESPONSE c ≠ EmptyString ∨ FBZX c ≠ EmptyString)
       ∧ k = "partialResponse").
Proof.
  rewrite build_payload_is_Some.
  unfold named_keys, keys_before_checkboxes, keys_after_checkboxes,
    flag_keys, protocol_keys.
  rewrite !elem_of_app, !elem_of_key_if, elem_of_extra_keys.
  rewrite !andb_true_iff, !orb_true_iff, !truthy_true.
  tauto.
Qed.

(** C4 as worded fails when another setting names the key: with [FBZX]
    unset an extra field called [fbzx] puts that key in the payload, and
    with [ENTRY_YES] unset the key named by [ENTRY_YES_SENTINEL] is there
    as the automatic sentinel of a checkbox. *)
Lemma unset_settings_keys_present :
  let c := config_of env_unset_yet_present in
  let payload := build_payload c "bebas1234" "0xabc" in
  FBZX c = EmptyString ∧ payload !! "fbzx" = Some "abc"
  ∧ ENTRY_YES c = EmptyString
  ∧ payload !! ENTRY_YES_SENTINEL c = Some EmptyString.
Proof. vm_compute. repeat split. Qed.

(** C5.  With [FBZX] equal to [xyz] and no partial-response override, the
    payload maps [partialResponse] to the literal [[null,null,"xyz"]]; a
    non-empty override is used verbatim. *)
Theorem partial_response_derived_or_verbatim c username address :
  (FBZX c = "xyz" → PARTIAL_RESPONSE c = EmptyString →
   build_payload c username address !! "partialResponse"
   = Some ("[null,null," +:+
           String PyStr.dquote ("xyz" +:+ String PyStr.dquote "]")))
  ∧ (PARTIAL_RESPONSE c ≠ EmptyString →
     build_payload c username address !! "partialResponse"
     = Some (PARTIAL_RESPONSE c)).
Proof.
  split.
  - intros Hf Hp. rewrite lookup_partial_response.
    unfold effective_partial_response. rewrite Hf, Hp. reflexivity.
  - intros Hp. rewrite lookup_partial_response.
    unfold effective_partial_response.
    apply truthy_true in Hp. rewrite Hp. simpl. by rewrite Hp.
Qed.

(** C5 at work, without and with an override. *)
Lemma partial_response_derived_or_verbatim_witness :
  build_payload (config_of env_fbzx_xyz) "bebas1234" "0xabc"
    !! "partialResponse"
  = Some ("[null,null," +:+
          String PyStr.dquote ("xyz" +:+ String PyStr.dquote "]"))
  ∧ build_payload (config_of env_partial_override) "bebas1234" "0xabc"
      !! "partialResponse"
    = Some "[1,2]".
Proof.
  split.
  - apply (proj1 (partial_response_derived_or_verbatim
                    (config_of env_fbzx_xyz) "bebas1234" "0xabc"));
      reflexivity.
  - apply (proj2 (partial_response_derived_or_verbatim
                    (config_of env_partial_override) "bebas1234" "0xabc")).
    vm_compute. discriminate.
Defined.

(** C6, as amended.  With automatic sentinels on and checkbox keys [A] and
    [B], the payload maps [A] and [B] to the checkbox value and [A_sentinel]
    and [B_sentinel] to the empty string, provided none of the four keys is
    written again after the checkbox loop (by a flag, a flag sentinel or an
    extra field).  With automatic sentinels off, the sentinel key of a
    checkbox is absent unless a setting names that very key. *)
Theorem checkbox_pair_and_sentinels c username address :
  (AUTO_SENTINEL_FOR_CHECKBOX c = true → CHECKBOX_KEYS c = ["A"; "B"] →
   (∀ k, k ∈ ["A"; "A_sentinel"; "B"; "B_sentinel"] →
         k ∉ keys_after_checkboxes c) →
   build_payload c username address !! "A" = Some (CHECKBOX_VALUE c)
   ∧ build_payload c username address !! "A_sentinel" = Some EmptyString
   ∧ build_payload c username address !! "B" = Some (CHECKBOX_VALUE c)
   ∧ build_payload c username address !! "B_sentinel" = Some EmptyString)
  ∧ (AUTO_SENTINEL_FOR_CHECKBOX c = false →
     ∀ x, x ∈ CHECKBOX_KEYS c →
          x +:+ "_sentinel" ∉ named_keys c username address →
          build_payload c username address !! (x +:+ "_sentinel") = None).
Proof.
  split.
  - intros Hauto Hkeys Hfree. rewrite build_payload_stages.
    rewrite !lookup_payload_after_checkboxes_ne
      by (apply Hfree; set_solver).
    rewrite Hauto, Hkeys. unfold set_checkbox_keys, set_checkbox. simpl.
    repeat split.
    + rewrite !lookup_insert_ne by done. apply lookup_insert_eq.
    + rewrite !lookup_insert_ne by done. apply lookup_insert_eq.
    + rewrite !lookup_insert_ne by done. apply lookup_insert_eq.
    + apply lookup_insert_eq.
  - intros Hauto x Hx Hfree. apply eq_None_not_Some.
    rewrite build_payload_is_Some. rewrite Hauto.
    intros [?|[? _]]; done.
Qed.

(** C6 at work: [CHECKBOX_KEYS=A,B], with the default toggle and with the
    toggle off. *)
Lemma checkbox_pair_and_sentinels_witness :
  (let p := build_payload (config_of env_checkbox_plain) "bebas1234" "0xabc" in
   p !! "A" = Some "Completed" ∧ p !! "A_sentinel" = Some EmptyString
   ∧ p !! "B" = Some "Completed" ∧ p !! "B_sentinel" = Some EmptyString)
  ∧ build_payload (config_of env_checkbox_no_sentinel) "bebas1234" "0xabc"
      !! "A_sentinel" = None.
Proof.
  split.
  - apply (proj1 (checkbox_pair_and_sentinels
                    (config_of env_checkbox_plain) "bebas1234" "0xabc")).
    + reflexivity.
    + reflexivity.
    + intros k Hk.
      repeat (apply elem_of_cons in Hk as [->|Hk]); [..|inversion Hk];
        decide_closed.
  - apply (proj2 (checkbox_pair_and_sentinels
                    (config_of env_checkbox_no_sentinel) "bebas1234" "0xabc")
             eq_refl "A").
    + decide_closed.
    + decide_closed.
Defined.

(** C6 as worded fails under a key collision: with [ENTRY_YES=A] the later
    write wins and [A] maps to the yes value; with the toggle off and an
    address key called [A_sentinel], that key is in the payload. *)
Lemma checkbox_value_overridden :
  (let c := config_of env_checkbox_overridden in
   AUTO_SENTINEL_FOR_CHECKBOX c = true ∧ CHECKBOX_KEYS c = ["A"; "B"]
   ∧ CHECKBOX_VALUE c = "Completed"
   ∧ build_payload c "bebas1234" "0xabc" !! "A" = Some "Yes")
  ∧ (let c := config_of env_sentinel_named_elsewhere in
     AUTO_SENTINEL_FOR_CHECKBOX c = false ∧ CHECKBOX_KEYS c = ["A"; "B"]
     ∧ build_payload c "bebas1234" "0xabc" !! "A_sentinel" = Some "0xabc").
Proof. vm_compute. repeat split. Qed.

(** C10, as amended.  For every index [i] from 1 to 20 whose
    [EXTRA_FIELD_i_KEY] is non-empty, that key is in every built payload.
    Its value is [EXTRA_FIELD_i_VALUE] provided no later extra field has the
    same key and the key is not one of the protocol parameters being
    written; the value is the empty string when the value setting is
    absent. *)
Theorem extra_field_key_always_emitted e n username address i :
  (1 ≤ i ≤ 20)%nat → extra_field_key e i ≠ EmptyString →
  is_Some (build_payload (load_config e n) username address
             !! extra_field_key e i)
  ∧ ((∀ j, (i < j ≤ 20)%nat → extra_field_key e j ≠ extra_field_key e i) →
     extra_field_key e i ∉ protocol_keys (load_config e n) →
     build_payload (load_config e n) username address !! extra_field_key e i
     = Some (extra_field_value e i))
  ∧ (getenv_raw e ("EXTRA_FIELD_" +:+ pretty i +:+ "_VALUE") = None →
     extra_field_value e i = EmptyString).
Proof.
  intros Hi Hk. split; [|split].
  - apply build_payload_is_Some. left.
    unfold named_keys, keys_after_checkboxes. rewrite !elem_of_app.
    right; right; right; right; left.
    apply elem_of_extra_keys. simpl.
    by apply extra_fields_from_env_is_Some.
  - intros Hlater Hfree. apply lookup_extra_field; [|done]. simpl.
    by apply extra_fields_from_env_lookup.
  - intros Habsent. unfold extra_field_value, getenv. by rewrite Habsent.
Qed.

(** C10 at work: [EXTRA_FIELD_4_KEY] alone, sent with an empty value. *)
Lemma extra_field_key_always_emitted_witness :
  is_Some (build_payload (config_of env_extra_without_value)
             "bebas1234" "0xabc" !! "entry.9")
  ∧ build_payload (config_of env_extra_without_value) "bebas1234" "0xabc"
      !! "entry.9" = Some EmptyString.
Proof.
  pose proof (extra_field_key_always_emitted
                (env_of env_extra_without_value) default_numeric
                "bebas1234" "0xabc" 4) as H.
  destruct H as (Hin & Hval & Hempty).
  - lia.
  - vm_compute. discriminate.
  - split; [exact Hin|].
    rewrite <- Hempty by reflexivity.
    apply Hval.
    + intros j Hj. vm_compute (extra_field_key _ 4).
      assert (j ∈ seq 5 16) as Hs by (apply elem_of_seq; lia).
      revert Hs. generalize j. apply Forall_forall.
      decide_closed.
    + decide_closed.
Defined.

(** C10 as worded fails under a key collision: an extra field called [fvv]
    is overwritten by the [FVV] parameter, and of two extra fields with one
    key the later value is sent. *)
Lemma extra_field_value_shadowed :
  let e := env_of env_extras_shadowed in
  let payload := build_payload (config_of env_extras_shadowed)
                   "bebas1234" "0xabc" in
  (extra_field_key e 1 = "fvv" ∧ extra_field_value e 1 = "2"
   ∧ payload !! "fvv" = Some "1")
  ∧ (extra_field_key e 2 = "entry.7" ∧ extra_field_value e 2 = "first"
     ∧ payload !! "entry.7" = Some "second").
Proof. vm_compute. repeat split. Qed.

(** ** Cookies *)

Lemma split1_before_after sep s :
  PyStr.contains sep s = true →
  PyStr.split1 sep s = [before_first sep s; after_first sep s].
Proof.
  induction s as [|c s IH]; simpl; [discriminate|].
  destruct (Ascii.eqb c sep); simpl; [done|].
  intros H. by rewrite IH.
Qed.

Lemma cookie_dict_step_spec d p :
  cookie_dict_step d p
  = if PyStr.contains "=" p
    then <[(cookie_name_value p).1 := (cookie_name_value p).2]> d else d.
Proof.
  unfold cookie_dict_step.
  destruct (PyStr.contains "=" p) eqn:H; [|done].
  by rewrite split1_before_after.
Qed.

Lemma foldl_cookie_dict_step l d :
  foldl cookie_dict_step d l
  = list_to_map
      (reverse (cookie_name_value <$>
                  filter (λ p, PyStr.contains "=" p = true) l)) ∪ d.
Proof.
  revert d. induction l as [|p l IH]; intros d; simpl.
  - by rewrite (left_id_L ∅ (∪)).
  - rewrite IH, cookie_dict_step_spec.
    destruct (PyStr.contains "=" p) eqn:H.
    + rewrite filter_cons_True by done.
      rewrite fmap_cons, reverse_cons, list_to_map_app. simpl.
      rewrite <- (assoc_L (∪)). f_equal.
      rewrite insert_empty. by rewrite <- insert_union_singleton_l.
    + rewrite filter_cons_False; [done|]. by rewrite H.
Qed.

Lemma filter_truthy_nonempty (l : list string) :
  filter (λ c, PyStr.truthy c = true) l = filter (λ p, p ≠ EmptyString) l.
Proof.
  apply list_filter_iff. intros x. apply truthy_true.
Qed.

(** The vocabulary of the specification against the string primitives of
    the script. *)

Lemma is_whitespace_isspace ch : is_whitespace ch = PyStr.isspace ch.
Proof. by destruct ch as [[] [] [] [] [] [] [] []]. Qed.

Lemma lstrip_drop_whitespace s :
  list_ascii_of_string (PyStr.lstrip s)
  = drop_whitespace (list_ascii_of_string s).
Proof.
  induction s as [|ch s IH]; simpl; [done|].
  rewrite is_whitespace_isspace. by destruct (PyStr.isspace ch).
Qed.

Lemma drop_whitespace_app l1 l2 :
  drop_whitespace (l1 ++ l2)
  = if forallb is_whitespace l1 then drop_whitespace l2
    else (drop_whitespace l1 ++ l2)%list.
Proof.
  induction l1 as [|ch l1 IH]; simpl; [done|].
  by destruct (is_whitespace ch).
Qed.

Lemma drop_whitespace_nil l :
  drop_whitespace l = [] ↔ forallb is_whitespace l = true.
Proof.
  induction l as [|ch l IH]; simpl; [done|].
  destruct (is_whitespace ch); simpl; [done|]. split; discriminate.
Qed.

Lemma forallb_reverse {A} (f : A → bool) l :
  forallb f (reverse l) = forallb f l.
Proof.
  induction l as [|x l IH]; simpl; [done|].
  rewrite reverse_cons, forallb_app, IH. simpl.
  rewrite andb_true_r. apply andb_comm.
Qed.

Lemma rstrip_drop_whitespace s :
  list_ascii_of_string (PyStr.rstrip s)
  = reverse (drop_whitespace (reverse (list_ascii_of_string s))).
Proof.
  induction s as [|ch s IH]; simpl; [done|].
  rewrite reverse_cons, drop_whitespace_app. simpl.
  rewrite forallb_reverse.
  assert (PyStr.truthy (PyStr.rstrip s) = false
          ↔ forallb is_whitespace (list_ascii_of_string s) = true) as Hall.
  { rewrite <- (forallb_reverse _ (list_ascii_of_string s)),
      <- drop_whitespace_nil.
    split.
    - intros H. destruct (PyStr.rstrip s); [|discriminate].
      simpl in IH. symmetry in IH. apply (f_equal reverse) in IH.
      by rewrite reverse_involutive in IH.
    - intros H. rewrite H in IH. by destruct (PyStr.rstrip s). }
  rewrite <- is_whitespace_isspace. destruct Hall as [Hall1 Hall2].
  destruct (forallb is_whitespace (list_ascii_of_string s)) eqn:Hs.
  - rewrite (Hall2 eq_refl). simpl.
    destruct (is_whitespace ch); simpl; [done|].
    pose proof (Hall2 eq_refl) as Ht.
    destruct (PyStr.rstrip s); [done|discriminate].
  - assert (PyStr.truthy (PyStr.rstrip s) = true) as Ht.
    { destruct (PyStr.truthy (PyStr.rstrip s)); [done|].
      by specialize (Hall1 eq_refl). }
    rewrite Ht, andb_false_r. simpl.
    by rewrite reverse_app, IH.
Qed.

Lemma trimmed_strip s : trimmed s = PyStr.strip s.
Proof.
  unfold trimmed, PyStr.strip.
  rewrite <- lstrip_drop_whitespace, <- rstrip_drop_whitespace.
  apply string_of_list_ascii_of_string.
Qed.

Lemma pieces_from_split sep current l :
  pieces_from sep current l
  = match PyStr.split sep (string_of_list_ascii l) with
    | h :: t =>
        string_of_list_ascii (reverse current ++ list_ascii_of_string h) :: t
    | [] => []
    end.
Proof.
  revert current. induction l as [|ch l IH]; intros current; simpl.
  - by rewrite app_nil_r.
  - rewrite !IH. case_bool_decide as Hch.
    + subst ch. rewrite Ascii.eqb_refl. simpl. rewrite app_nil_r.
      destruct (PyStr.split sep (string_of_list_ascii l)); [done|].
      by rewrite string_of_list_ascii_of_string.
    + apply Ascii.eqb_neq in Hch. rewrite Hch.
      assert (PyStr.split sep (string_of_list_ascii l) ≠ []) as Hne.
      { clear. generalize (string_of_list_ascii l). intros s.
        destruct s as [|c s]; simpl; [done|].
        destruct (Ascii.eqb c sep); [done|]. by destruct (PyStr.split sep s). }
      destruct (PyStr.split sep (string_of_list_ascii l)) as [|h t]; [done|].
      f_equal. rewrite reverse_cons. simpl.
      by rewrite <- app_assoc.
Qed.

Lemma pieces_split sep s : pieces sep s = PyStr.split sep s.
Proof.
  unfold pieces. rewrite pieces_from_split, string_of_list_ascii_of_string.
  destruct (PyStr.split sep s); [done|]. simpl.
  by rewrite string_of_list_ascii_of_string.
Qed.

Lemma contains_elem_of sep s :
  sep ∈ list_ascii_of_string s ↔ PyStr.contains sep s = true.
Proof.
  induction s as [|ch s IH]; simpl.
  - split; [by intros ?%elem_of_nil | discriminate].
  - rewrite elem_of_cons, IH, orb_true_iff, Ascii.eqb_eq.
    split; (intros [->|?]; [by left | by right]).
Qed.

Lemma without_escaped_quotes_remove_pair s pending :
  without_escaped_quotes pending (list_ascii_of_string s)
  = list_ascii_of_string
      (PyStr.remove_pair PyStr.backslash PyStr.dquote
         (if pending then String PyStr.backslash s else s)).
Proof.
  revert pending. induction s as [|ch s IH]; intros pending.
  - by destruct pending.
  - change (list_ascii_of_string (String ch s))
      with (ch :: list_ascii_of_string s).
    cbn [without_escaped_quotes]. rewrite !IH.
    destruct pending.
    + change (PyStr.remove_pair PyStr.backslash PyStr.dquote
                (String PyStr.backslash (String ch s)))
        with (if Ascii.eqb PyStr.backslash PyStr.backslash
                 && Ascii.eqb ch PyStr.dquote
              then PyStr.remove_pair PyStr.backslash PyStr.dquote s
              else String PyStr.backslash
                     (PyStr.remove_pair PyStr.backslash PyStr.dquote
                        (String ch s))).
      rewrite Ascii.eqb_refl. simpl andb.
      case_bool_decide as Hb.
      * subst ch. done.
      * case_bool_decide as Hq.
        -- subst ch. by rewrite Ascii.eqb_refl.
        -- apply Ascii.eqb_neq in Hq. rewrite Hq.
           apply Ascii.eqb_neq in Hb. simpl. f_equal.
           destruct s as [|c2 rest]; [done|].
           cbn [PyStr.remove_pair]. by rewrite Hb.
    + case_bool_decide as Hb.
      * subst ch. simpl app. destruct s as [|c2 rest]; [done|].
        cbn [PyStr.remove_pair]. rewrite Ascii.eqb_refl. simpl andb.
        done.
      * rewrite andb_false_r. simpl app. apply Ascii.eqb_neq in Hb.
        destruct s as [|c2 rest]; [done|].
        cbn [PyStr.remove_pair]. by rewrite Hb.
Qed.

Lemma startswith_char_head q s :
  startswith_char q s = bool_decide (head (list_ascii_of_string s) = Some q).
Proof.
  destruct s as [|ch s]; simpl; [done|].
  destruct (Ascii.eqb ch q) eqn:E.
  - apply Ascii.eqb_eq in E. subst. by rewrite bool_decide_eq_true_2.
  - apply Ascii.eqb_neq in E. rewrite bool_decide_eq_false_2; [done|].
    by intros [= ?].
Qed.

Lemma endswith_char_last q s :
  endswith_char q s = bool_decide (last (list_ascii_of_string s) = Some q).
Proof.
  induction s as [|ch s IH]; [done|].
  destruct s as [|c2 rest].
  - simpl. destruct (Ascii.eqb ch q) eqn:E.
    + apply Ascii.eqb_eq in E. subst. by rewrite bool_decide_eq_true_2.
    + apply Ascii.eqb_neq in E. rewrite bool_decide_eq_false_2; [done|].
      by intros [= ?].
  - change (endswith_char q (String ch (String c2 rest)))
      with (endswith_char q (String c2 rest)).
    rewrite IH. done.
Qed.

Lemma presented_value_jar_value v : presented_value v = jar_value v.
Proof.
  unfold presented_value, jar_value.
  rewrite startswith_char_head, endswith_char_last.
  rewrite (without_escaped_quotes_remove_pair v false).
  rewrite string_of_list_ascii_of_string.
  destruct (decide (head (list_ascii_of_string v) = Some PyStr.dquote)) as [H1|H1];
    destruct (decide (last (list_ascii_of_string v) = Some PyStr.dquote)) as [H2|H2].
  - rewrite !bool_decide_eq_true_2; done.
  - rewrite bool_decide_eq_false_2 by (by intros [? ?]).
    by rewrite (bool_decide_eq_false_2 (last _ = _)), andb_false_r.
  - rewrite bool_decide_eq_false_2 by (by intros [? ?]).
    by rewrite (bool_decide_eq_false_2 (head _ = _)).
  - rewrite bool_decide_eq_false_2 by (by intros [? ?]).
    by rewrite (bool_decide_eq_false_2 (head _ = _)).
Qed.

Lemma fmap_ext_all {A B} (f g : A → B) (l : list A) :
  (∀ x, f x = g x) → f <$> l = g <$> l.
Proof.
  intros H. induction l as [|x l IH]; [done|].
  by rewrite !fmap_cons, H, IH.
Qed.

Lemma parse_cookies_by_the_text raw :
  parse_cookies raw = cookies_by_the_text raw.
Proof.
  unfold parse_cookies, cookies_by_the_text, cookie_pairs.
  rewrite foldl_cookie_dict_step, (right_id_L ∅ (∪)).
  rewrite filter_truthy_nonempty, pieces_split.
  rewrite (fmap_ext_all trimmed PyStr.strip) by apply trimmed_strip.
  rewrite (fmap_ext_all trimmed_name_value cookie_name_value); cycle 1.
  { intros p. unfold trimmed_name_value, cookie_name_value.
    by rewrite !trimmed_strip. }
  do 3 f_equal. apply list_filter_iff. intros p. symmetry.
  apply contains_elem_of.
Qed.

(** C8, as amended.  [mk_session] always returns, and the cookies of the
    session are the pairs the specification describes for the raw cookie
    string (split on [;], trimmed, the empty pieces and those without [=]
    dropped, each remaining piece cut at its first [=] and both sides
    trimmed), each value as the cookie jar keeps it: a value wrapped in
    double quotes has lost every backslash that a double quote follows,
    and that quote.  For ["a=1; b=2"] the cookies are exactly [a=1] and
    [b=2]. *)
Theorem session_cookies_split_and_trimmed c w :
  ∃ s w', mk_session c w = (Returns s, w')
    ∧ cookies s = presented_value <$> cookies_by_the_text (SESSION_COOKIES c)
    ∧ (SESSION_COOKIES c = "a=1; b=2" →
       cookies s = <["a" := "1"]> (<["b" := "2"]> ∅)).
Proof.
  unfold mk_session.
  destruct (PyStr.truthy (SESSION_COOKIES c)) eqn:Hraw.
  - eexists _, _. split; [reflexivity|]. simpl.
    rewrite (right_id_L ∅ (∪)). split.
    + rewrite parse_cookies_by_the_text. apply map_fmap_ext.
      intros _ v _. symmetry. apply presented_value_jar_value.
    + intros ->. by vm_compute.
  - eexists _, _. split; [reflexivity|]. simpl.
    apply truthy_false in Hraw. rewrite Hraw. split; [done|discriminate].
Qed.

(** C8 at work: [SESSION_COOKIES="a=1; b=2"]. *)
Lemma session_cookies_split_and_trimmed_witness :
  ∃ s w', mk_session (config_of env_two_cookies) initial_world = (Returns s, w')
    ∧ cookies s = <["a" := "1"]> (<["b" := "2"]> ∅).
Proof.
  destruct (session_cookies_split_and_trimmed
              (config_of env_two_cookies) initial_world)
    as (s & w' & Hrun & _ & Hex).
  exists s, w'. split; [exact Hrun|]. apply Hex. reflexivity.
Defined.

(** C8 as worded fails on a value wrapped in double quotes that holds an
    escaped quote: split and trimmed as the claim says, the first cookie of
    the string has the value with its backslash, but the session presents
    it without the backslash and the quote after it. *)
Lemma quoted_cookie_value_rewritten :
  let c := config_of env_quoted_cookie in
  cookies_by_the_text (SESSION_COOKIES c)
  = <["a" := quoted_with_escape]> (<["b" := "2"]> ∅)
  ∧ ∃ s w', mk_session c initial_world = (Returns s, w')
      ∧ cookies s = <["a" := quoted_without_escape]> (<["b" := "2"]> ∅)
      ∧ cookies s !! "a"
        ≠ cookies_by_the_text (SESSION_COOKIES c) !! "a".
Proof.
  split; [by vm_compute|]. eexists _, _.
  split; [vm_compute; reflexivity|].
  split; [by vm_compute|]. by vm_compute.
Qed.

(** ** Submitting with retries *)

(** C9.  When [MAX_RETRIES] is zero or negative, [submit_with_retries]
    raises [RuntimeError("request failed")] and leaves the world as it was:
    no POST, no sleep, nothing printed. *)
Theorem no_attempt_when_retries_not_positive c o s payload w :
  MAX_RETRIES c ≤ 0 →
  submit_with_retries c o s payload w = (Raises request_failed, w).
Proof.
  intros H. unfold submit_with_retries.
  replace (Z.to_nat (MAX_RETRIES c)) with 0%nat by lia. reflexivity.
Qed.

(** C9 at work: [MAX_RETRIES=0]. *)
Lemma no_attempt_when_retries_not_positive_witness :
  submit_with_retries (load_config (env_of env_one_address_field) no_retries)
    (oracle_answering (Responds response_200)) plain_session ∅ initial_world
  = (Raises request_failed, initial_world).
Proof.
  apply no_attempt_when_retries_not_positive. vm_compute. discriminate.
Defined.

(** C3.  With [MAX_RETRIES = 2] and a transport failure at both attempts,
    [submit_with_retries] makes exactly two POSTs, sleeps [1 + 1] between
    them (and [1 + 2] after the second), and raises the second exception.
    At any attempt a response, whatever its status, is returned at once:
    nothing follows the POST that received it. *)
Theorem two_failed_posts_then_propagate c o s payload w :
  (∀ e1 e2,
     MAX_RETRIES c = 2 →
     http_post o (posts_made w) = Fails e1 →
     http_post o (S (posts_made w)) = Fails e2 →
     is_request_exception e1 = true → is_request_exception e2 = true →
     ∃ w', submit_with_retries c o s payload w = (Raises e2, w')
       ∧ events w'
         = (events w
            ++ [Post s (FORM_RESPONSE_URL c) payload (TIMEOUT c);
                Print (warn_line c 1 e1); Sleep (inject_Z 2);
                Post s (FORM_RESPONSE_URL c) payload (TIMEOUT c);
                Print (warn_line c 2 e2); Sleep (inject_Z 3)])%list
       ∧ posts_made w' = (posts_made w + 2)%nat)
  ∧ (∀ resp remaining attempt last_exc,
       http_post o (posts_made w) = Responds resp →
       ∃ w', submit_attempts c o s payload (S remaining) attempt last_exc w
             = (Returns resp, w')
         ∧ events w'
           = (events w
              ++ [Post s (FORM_RESPONSE_URL c) payload (TIMEOUT c)])%list
         ∧ posts_made w' = S (posts_made w))
  ∧ (∀ resp,
       1 ≤ MAX_RETRIES c →
       http_post o (posts_made w) = Responds resp →
       ∃ w', submit_with_retries c o s payload w = (Returns resp, w')
         ∧ events w'
           = (events w
              ++ [Post s (FORM_RESPONSE_URL c) payload (TIMEOUT c)])%list
         ∧ posts_made w' = S (posts_made w)).
Proof.
  assert (∀ resp remaining attempt last_exc,
       http_post o (posts_made w) = Responds resp →
       ∃ w', submit_attempts c o s payload (S remaining) attempt last_exc w
             = (Returns resp, w')
         ∧ events w'
           = (events w
              ++ [Post s (FORM_RESPONSE_URL c) payload (TIMEOUT c)])%list
         ∧ posts_made w' = S (posts_made w)) as Himmediate.
  { intros resp remaining attempt last_exc Hresp. simpl.
    unfold try_except, session_post. rewrite Hresp.
    eexists. repeat split. }
  split; [|split; [exact Himmediate|]].
  - intros e1 e2 Hmax H1 H2 Hreq1 Hreq2.
    unfold submit_with_retries. rewrite Hmax. simpl.
    unfold try_except at 1, session_post at 1. rewrite H1, Hreq1.
    unfold mbind, M_bind, print, emit, time_sleep_int. simpl.
    unfold try_except, session_post. simpl. rewrite H2, Hreq2. simpl.
    eexists. split; [reflexivity|]. simpl. split.
    + unfold warn_line. rewrite Hmax. by rewrite <- !app_assoc.
    + lia.
  - intros resp Hmax Hresp. unfold submit_with_retries.
    destruct (Z.to_nat (MAX_RETRIES c)) as [|n] eqn:Hn; [lia|].
    by apply Himmediate.
Qed.

(** C3 at work: a network that refuses every connection, and one that
    answers 200. *)
Lemma two_failed_posts_then_propagate_witness :
  let c := config_of env_one_address_field in
  (∃ w', submit_with_retries c (oracle_answering (Fails connection_error))
           plain_session ∅ initial_world = (Raises connection_error, w')
     ∧ filter (λ ev, is_post ev = true) (events w')
       = [Post plain_session (FORM_RESPONSE_URL c) ∅ 30;
          Post plain_session (FORM_RESPONSE_URL c) ∅ 30]
     ∧ posts_made w' = 2%nat)
  ∧ (∃ w', submit_with_retries c (oracle_answering (Responds response_200))
             plain_session ∅ initial_world = (Returns response_200, w')
       ∧ posts_made w' = 1%nat).
Proof.
  intros c. split.
  - destruct (proj1 (two_failed_posts_then_propagate c
                       (oracle_answering (Fails connection_error))
                       plain_session ∅ initial_world)
                connection_error connection_error)
      as (w' & Hrun & Hev & Hposts); try reflexivity.
    exists w'. split; [exact Hrun|]. split; [|exact Hposts].
    rewrite Hev. reflexivity.
  - destruct (proj2 (proj2 (two_failed_posts_then_propagate c
                       (oracle_answering (Responds response_200))
                       plain_session ∅ initial_world))
                response_200)
      as (w' & Hrun & _ & Hposts).
    + vm_compute. discriminate.
    + reflexivity.
    + by exists w'.
Defined.

(** ** The rows of the log *)

Lemma log_rows_app evs1 evs2 :
  log_rows (evs1 ++ evs2) = (log_rows evs1 ++ log_rows evs2)%list.
Proof. unfold log_rows. apply omap_app. Qed.

Lemma bind_returns {A B} (m : M A) (f : A → M B) w a w1 :
  m w = (Returns a, w1) → (m ≫= f) w = f a w1.
Proof. intros H. unfold mbind, M_bind. by rewrite H. Qed.


Lemma time_sleep_cases o secs :
  (∃ d, secs = Finite d
     ∧ ∀ w, time_sleep o secs w = (Returns tt, after_event w (Sleep d)))
  ∨ (∃ e, ∀ w, time_sleep o secs w = (Raises e, w)).
Proof.
  destruct secs as [d|negative|]; [|right; by eexists..].
  unfold time_sleep.
  destruct (negb _ || negb _); [right; by eexists|].
  destruct (_ || _); [right; by eexists|].
  destruct (sleep_error o d); [right; by eexists|].
  left. by exists d.
Qed.


(** The retry loop writes no row: it only posts, prints and sleeps. *)
Lemma submit_attempts_no_rows c o s payload remaining attempt last w r w' :
  submit_attempts c o s payload remaining attempt last w = (r, w') →
  log_rows (events w') = log_rows (events w).
Proof.
  revert attempt last w.
  induction remaining as [|n IH]; intros attempt last w; simpl.
  - unfold raise. by intros [= _ <-].
  - unfold try_except, session_post.
    destruct (http_post o (posts_made w)) as [resp|e].
    + intros [= _ <-]. simpl. rewrite log_rows_app. simpl. apply app_nil_r.
    + destruct (is_request_exception e).
      * unfold mbind, M_bind, print, emit, time_sleep_int. simpl.
        destruct (0 <=? 1 + attempt).
        -- simpl. intros H%IH. rewrite H. simpl.
           rewrite !log_rows_app. simpl. by rewrite !app_nil_r.
        -- unfold raise. intros [= _ <-]. simpl.
           rewrite !log_rows_app. simpl. by rewrite !app_nil_r.
      * intros [= _ <-]. simpl. rewrite log_rows_app. simpl. apply app_nil_r.
Qed.

Lemma submit_with_retries_no_rows c o s payload w r w' :
  submit_with_retries c o s payload w = (r, w') →
  log_rows (events w') = log_rows (events w).
Proof. apply submit_attempts_no_rows. Qed.

Lemma submit_and_log_row c o s username addr payload w r w1 :
  submit_with_retries c o s payload w = (r, w1) →
  ∃ w', submit_and_log c o s username addr payload w = (Returns tt, w')
    ∧ log_rows (events w')
      = (log_rows (events w)
         ++ [row_for (utcnow_isoformat o (clock_reads w1)) username addr r])%list.
Proof.
  intros Hsub. pose proof (submit_with_retries_no_rows _ _ _ _ _ _ _ Hsub) as Hrows.
  unfold submit_and_log, try_except, mbind, M_bind. rewrite Hsub.
  destruct r as [resp|e]; simpl.
  - eexists. split; [reflexivity|]. simpl.
    rewrite !log_rows_app, Hrows. simpl. by rewrite app_nil_r.
  - eexists. split; [reflexivity|]. simpl.
    rewrite !log_rows_app, Hrows. simpl. by rewrite app_nil_r.
Qed.

Lemma status_ok_iff code : status_ok code = true ↔ 200 ≤ code < 400.
Proof. unfold status_ok. rewrite andb_true_iff, Z.leb_le, Z.ltb_lt. done. Qed.

(** C7.  The row logged for a submission that returned a response carries
    its status code, and its ok flag is true exactly when
    [200 <= status < 400]; in particular status 200 is logged as ok with
    status code 200.  A submission that raised (a transport failure
    included) is logged with ok false. *)
Theorem logged_ok_iff_status_below_400 c o s username addr payload w r w1 :
  submit_with_retries c o s payload w = (r, w1) →
  ∃ row w', submit_and_log c o s username addr payload w = (Returns tt, w')
    ∧ log_rows (events w') = (log_rows (events w) ++ [row])%list
    ∧ match r with
      | Returns resp =>
          row_status_code row = CInt (status_code resp)
          ∧ (row_ok row = true ↔ 200 ≤ status_code resp < 400)
          ∧ (status_code resp = 200 →
             row_ok row = true ∧ row_status_code row = CInt 200)
      | Raises e => row_ok row = false
      end.
Proof.
  intros Hsub.
  destruct (submit_and_log_row c o s username addr payload w _ _ Hsub)
    as (w' & Hlog & Hrows).
  eexists _, w'. split; [exact Hlog|]. split; [exact Hrows|].
  destruct r as [resp|e]; simpl; [|done].
  split; [done|]. split; [apply status_ok_iff|].
  intros ->. done.
Qed.

(** C7 at work: a response with status 200. *)
Lemma logged_ok_iff_status_below_400_witness :
  ∃ row w', submit_and_log (config_of env_one_address_field)
              (oracle_answering (Responds response_200)) plain_session
              EmptyString "0xaaa" ∅ initial_world = (Returns tt, w')
    ∧ log_rows (events w') = [row]
    ∧ row_ok row = true ∧ row_status_code row = CInt 200.
Proof.
  destruct (logged_ok_iff_status_below_400 (config_of env_one_address_field)
              (oracle_answering (Responds response_200)) plain_session
              EmptyString "0xaaa" ∅ initial_world (Returns response_200)
              {| events := [Post plain_session
                              "https://forms.example/formResponse" ∅ 30];
                 posts_made := 1; clock_reads := 0; random_draws := 0 |})
    as (row & w' & Hrun & Hrows & _ & _ & H200).
  - vm_compute. reflexivity.
  - exists row, w'. split; [exact Hrun|]. split; [exact Hrows|].
    apply H200. reflexivity.
Defined.




Lemma with_open_w_run {A} o path (body : M A) w :
  open_w_error o path = None →
  with_open_w o path body w
  = let (r, w') := body (emit (OpenW path) w).2 in
    (r, (emit (Close path) w').2).
Proof. intros H. unfold with_open_w. by rewrite H. Qed.

Lemma with_open_w_fails {A} o path (body : M A) w e :
  open_w_error o path = Some e →
  with_open_w o path body w = (Raises e, w).
Proof. intros H. unfold with_open_w. by rewrite H. Qed.





(** ** Validation *)

Lemma any_field_configured_false c :
  ENTRY_USERNAME c = EmptyString → ENTRY_ADDRESS c = EmptyString →
  ENTRY_YES c = EmptyString → ENTRY_DONE c = EmptyString →
  ADDRESS_KEYS c = [] → CHECKBOX_KEYS c = [] → EXTRA_FIELDS c = ∅ →
  any_field_configured c = false.
Proof.
  unfold any_field_configured. by intros -> -> -> -> -> -> ->.
Qed.

(** C2.  When the target URL is empty, or none of the field settings
    (username, legacy address, yes, done, address keys, checkbox keys, extra
    fields) is populated, or the address file yields no record, [main]
    prints one [[ERROR]] line and returns: the log is not opened and no POST
    is made. *)
Theorem invalid_run_prints_error_only c o w :
  FORM_RESPONSE_URL c = EmptyString
  ∨ (ENTRY_USERNAME c = EmptyString ∧ ENTRY_ADDRESS c = EmptyString
     ∧ ENTRY_YES c = EmptyString ∧ ENTRY_DONE c = EmptyString
     ∧ ADDRESS_KEYS c = [] ∧ CHECKBOX_KEYS c = [] ∧ EXTRA_FIELDS c = ∅)
  ∨ read_addresses o (ADDRESS_FILE c) = [] →
  ∃ msg w', main c o w = (Returns tt, w')
    ∧ events w' = (events w ++ [Print ("[ERROR] " +:+ msg)])%list
    ∧ posts_made w' = posts_made w.
Proof.
  intros Hinvalid. unfold main.
  destruct (PyStr.truthy (FORM_RESPONSE_URL c)) eqn:Hurl; simpl.
  - destruct (any_field_configured c) eqn:Hfields; simpl.
    + destruct Hinvalid as [Hu|[Hf|Hr]].
      * apply truthy_false in Hu. congruence.
      * destruct Hf as (? & ? & ? & ? & ? & ? & ?).
        rewrite any_field_configured_false in Hfields by done. discriminate.
      * rewrite Hr. simpl. eexists _, _. repeat split.
    + eexists _, _. repeat split.
  - eexists _, _. repeat split.
Qed.

(** C2 at work, once for each of the three ways to fail validation. *)
Lemma invalid_run_prints_error_only_witness :
  (∃ msg w', main (config_of []) (oracle_answering (Responds response_200))
               initial_world = (Returns tt, w')
     ∧ events w' = [Print ("[ERROR] " +:+ msg)])
  ∧ (∃ msg w', main (config_of env_no_field)
                 (oracle_answering (Responds response_200)) initial_world
               = (Returns tt, w')
       ∧ events w' = [Print ("[ERROR] " +:+ msg)])
  ∧ (∃ msg w', main (config_of env_missing_address_file)
                 (oracle_answering (Responds response_200)) initial_world
               = (Returns tt, w')
       ∧ events w' = [Print ("[ERROR] " +:+ msg)]).
Proof.
  split; [|split].
  - destruct (invalid_run_prints_error_only (config_of [])
                (oracle_answering (Responds response_200)) initial_world)
      as (msg & w' & Hrun & Hev & _).
    + left. reflexivity.
    + by exists msg, w'.
  - destruct (invalid_run_prints_error_only (config_of env_no_field)
                (oracle_answering (Responds response_200)) initial_world)
      as (msg & w' & Hrun & Hev & _).
    + right; left. vm_compute. repeat split.
    + by exists msg, w'.
  - destruct (invalid_run_prints_error_only
                (config_of env_missing_address_file)
                (oracle_answering (Responds response_200)) initial_world)
      as (msg & w' & Hrun & Hev & _).
    + right; right. vm_compute. reflexivity.
    + by exists msg, w'.
Defined.

(** ** More on strings: trimming, splitting and joining *)

Lemma lstrip_length s : (String.length (PyStr.lstrip s) ≤ String.length s)%nat.
Proof.
  induction s as [|c s IH]; simpl; [lia|].
  destruct (PyStr.isspace c); simpl; lia.
Qed.

Lemma lstrip_fixed_head c s :
  PyStr.lstrip (String c s) = String c s → PyStr.isspace c = false.
Proof.
  simpl. destruct (PyStr.isspace c); [|done].
  intros H. pose proof (lstrip_length s) as Hl. rewrite H in Hl. simpl in Hl. lia.
Qed.

Lemma lstrip_idem s : PyStr.lstrip (PyStr.lstrip s) = PyStr.lstrip s.
Proof.
  induction s as [|c s IH]; simpl; [done|].
  destruct (PyStr.isspace c) eqn:Hc; [done|]. simpl. by rewrite Hc.
Qed.

Lemma rstrip_idem s : PyStr.rstrip (PyStr.rstrip s) = PyStr.rstrip s.
Proof.
  induction s as [|c s IH]; simpl; [done|].
  destruct (PyStr.isspace c && negb (PyStr.truthy (PyStr.rstrip s))) eqn:Hc;
    [done|].
  simpl. by rewrite IH, Hc.
Qed.

Lemma lstrip_rstrip_fixed s :
  PyStr.lstrip s = s → PyStr.lstrip (PyStr.rstrip s) = PyStr.rstrip s.
Proof.
  destruct s as [|c s]; [done|]. intros Hc%lstrip_fixed_head.
  simpl. rewrite Hc. simpl. by rewrite Hc.
Qed.

Lemma strip_idem s : PyStr.strip (PyStr.strip s) = PyStr.strip s.
Proof.
  unfold PyStr.strip.
  rewrite (lstrip_rstrip_fixed (PyStr.lstrip s)) by apply lstrip_idem.
  apply rstrip_idem.
Qed.

Lemma strip_fixed_lstrip s : PyStr.strip s = s → PyStr.lstrip s = s.
Proof.
  unfold PyStr.strip. intros H. rewrite <- H at 1.
  rewrite lstrip_rstrip_fixed by apply lstrip_idem. done.
Qed.

Lemma strip_fixed_rstrip s : PyStr.strip s = s → PyStr.rstrip s = s.
Proof.
  intros H. pose proof (strip_fixed_lstrip s H) as Hl.
  unfold PyStr.strip in H. by rewrite Hl in H.
Qed.

Lemma strip_fixed_iff s :
  PyStr.strip s = s ↔ PyStr.lstrip s = s ∧ PyStr.rstrip s = s.
Proof.
  split.
  - intros H. split; [by apply strip_fixed_lstrip | by apply strip_fixed_rstrip].
  - intros [Hl Hr]. unfold PyStr.strip. by rewrite Hl.
Qed.

Lemma contains_cons sep c s :
  PyStr.contains sep (String c s) = Ascii.eqb c sep || PyStr.contains sep s.
Proof. reflexivity. Qed.

Lemma contains_app c x y :
  PyStr.contains c (x +:+ y) = PyStr.contains c x || PyStr.contains c y.
Proof.
  induction x as [|d x IH]; simpl; [done|]. by rewrite IH, orb_assoc.
Qed.

Lemma contains_lstrip c s :
  PyStr.contains c (PyStr.lstrip s) = true → PyStr.contains c s = true.
Proof.
  induction s as [|d s IH]; simpl; [done|].
  destruct (PyStr.isspace d); [|done].
  intros H%IH. rewrite H. apply orb_true_r.
Qed.

Lemma contains_rstrip c s :
  PyStr.contains c (PyStr.rstrip s) = true → PyStr.contains c s = true.
Proof.
  induction s as [|d s IH]; simpl; [done|].
  destruct (PyStr.isspace d && negb (PyStr.truthy (PyStr.rstrip s)));
    simpl; [done|].
  intros [->|H%IH]%orb_true_iff; [done|]. rewrite H. apply orb_true_r.
Qed.

Lemma contains_strip c s :
  PyStr.contains c (PyStr.strip s) = true → PyStr.contains c s = true.
Proof. unfold PyStr.strip. intros H%contains_rstrip. by apply contains_lstrip. Qed.

Lemma truthy_app_r x y : PyStr.truthy y = true → PyStr.truthy (x +:+ y) = true.
Proof. destruct x; [done|]. done. Qed.

Lemma rstrip_app x y :
  PyStr.truthy (PyStr.rstrip y) = true →
  PyStr.rstrip (x +:+ y) = x +:+ PyStr.rstrip y.
Proof.
  intros Hy. induction x as [|c x IH]; [done|].
  change (String c x +:+ y) with (String c (x +:+ y)).
  change (String c x +:+ PyStr.rstrip y) with (String c (x +:+ PyStr.rstrip y)).
  simpl. rewrite IH, truthy_app_r by done.
  by rewrite andb_false_r.
Qed.

Lemma split_not_nil sep s : PyStr.split sep s ≠ [].
Proof.
  induction s as [|c s IH]; simpl; [done|].
  destruct (Ascii.eqb c sep); [done|]. by destruct (PyStr.split sep s).
Qed.

Lemma split_pieces sep s p :
  p ∈ PyStr.split sep s →
  PyStr.contains sep p = false
  ∧ ∀ c, PyStr.contains c p = true → PyStr.contains c s = true.
Proof.
  revert p. induction s as [|d s IH]; simpl; intros p.
  - intros ->%list_elem_of_singleton. done.
  - destruct (Ascii.eqb d sep) eqn:Hd.
    + intros [->|Hin]%elem_of_cons; [done|].
      destruct (IH p Hin) as [Hsep Hsub]. split; [done|].
      intros c Hc. rewrite (Hsub c Hc). apply orb_true_r.
    + pose proof (split_not_nil sep s) as Hne.
      destruct (PyStr.split sep s) as [|h t]; [done|].
      intros [->|Hin]%elem_of_cons.
      * destruct (IH h) as [Hsep Hsub]; [by left|]. simpl. rewrite Hd, Hsep.
        split; [done|]. intros c [->|Hc]%orb_true_iff; [done|].
        rewrite (Hsub c Hc). apply orb_true_r.
      * destruct (IH p) as [Hsep Hsub]; [by right|]. split; [done|].
        intros c Hc. rewrite (Hsub c Hc). apply orb_true_r.
Qed.

Lemma split_no_sep sep x :
  PyStr.contains sep x = false → PyStr.split sep x = [x].
Proof.
  induction x as [|c x IH]; simpl; [done|].
  intros [Hc Hx]%orb_false_iff. rewrite Hc, (IH Hx). done.
Qed.

Lemma split_app_sep sep x rest :
  PyStr.contains sep x = false →
  PyStr.split sep (x +:+ String sep rest) = x :: PyStr.split sep rest.
Proof.
  induction x as [|c x IH]; simpl.
  - intros _. by rewrite Ascii.eqb_refl.
  - intros [Hc Hx]%orb_false_iff. rewrite Hc, (IH Hx). done.
Qed.

Lemma split_join sep x items :
  Forall (λ y, PyStr.contains sep y = false) (x :: items) →
  PyStr.split sep (join sep (x :: items)) = x :: items.
Proof.
  revert x. induction items as [|y items IH]; intros x Hall.
  - apply split_no_sep. by inversion Hall.
  - inversion Hall as [|? ? Hx Hrest]; subst.
    change (join sep (x :: y :: items))
      with (x +:+ String sep (join sep (y :: items))).
    rewrite split_app_sep by done. by rewrite IH.
Qed.

Lemma join_truthy sep x items :
  x ≠ EmptyString → PyStr.truthy (join sep (x :: items)) = true.
Proof. destruct x; [done|]. by destruct items. Qed.

Lemma filter_fmap_strip_clean (items : list string) :
  Forall (λ y, y ≠ EmptyString ∧ PyStr.strip y = y) items →
  filter (λ x, PyStr.truthy x = true) (PyStr.strip <$> items) = items.
Proof.
  induction 1 as [|y items [Hne Hs] _ IH]; [done|].
  rewrite fmap_cons, Hs, filter_cons_True by by apply truthy_true.
  by rewrite IH.
Qed.

Lemma contains_replace_char a b s :
  a ≠ b → PyStr.contains a (PyStr.replace_char a b s) = false.
Proof.
  intros Hab. induction s as [|c s IH]; simpl; [done|]. rewrite IH.
  destruct (Ascii.eqb c a) eqn:Hc; rewrite orb_false_r.
  - apply Ascii.eqb_neq. congruence.
  - done.
Qed.

Lemma replace_char_absent a b s :
  PyStr.contains a s = false → PyStr.replace_char a b s = s.
Proof.
  induction s as [|c s IH]; simpl; [done|].
  intros [Hc Hs]%orb_false_iff. by rewrite Hc, IH.
Qed.

Lemma split_unlines items :
  Forall (λ y, PyStr.contains PyStr.newline y = false) items →
  PyStr.split PyStr.newline (unlines items) = (items ++ [EmptyString])%list.
Proof.
  induction 1 as [|y items Hy _ IH]; [done|].
  change (unlines (y :: items))
    with (y +:+ String PyStr.newline (unlines items)).
  rewrite split_app_sep by done. by rewrite IH.
Qed.

Lemma contains_unlines c items :
  c ≠ PyStr.newline →
  Forall (λ y, PyStr.contains c y = false) items →
  PyStr.contains c (unlines items) = false.
Proof.
  intros Hc. induction 1 as [|y items Hy _ IH]; [done|].
  change (unlines (y :: items))
    with (y +:+ String PyStr.newline (unlines items)).
  rewrite contains_app, Hy, contains_cons, IH, orb_false_r.
  apply Ascii.eqb_neq. congruence.
Qed.

Lemma contains_before_first sep s :
  PyStr.contains sep (before_first sep s) = false.
Proof.
  induction s as [|c s IH]; simpl; [done|].
  destruct (Ascii.eqb c sep) eqn:Hc; [done|]. simpl. by rewrite Hc, IH.
Qed.

Lemma contains_before_first_sub c sep s :
  PyStr.contains c (before_first sep s) = true → PyStr.contains c s = true.
Proof.
  induction s as [|d s IH]; simpl; [done|].
  destruct (Ascii.eqb d sep); [done|]. simpl.
  intros [->|H%IH]%orb_true_iff; [done|]. rewrite H. apply orb_true_r.
Qed.

Lemma contains_after_first_sub c sep s :
  PyStr.contains c (after_first sep s) = true → PyStr.contains c s = true.
Proof.
  induction s as [|d s IH]; simpl; [done|].
  destruct (Ascii.eqb d sep).
  - intros ->. apply orb_true_r.
  - intros H%IH. rewrite H. apply orb_true_r.
Qed.

Lemma before_first_app sep x y :
  PyStr.contains sep x = false →
  before_first sep (x +:+ String sep y) = x.
Proof.
  induction x as [|c x IH]; simpl.
  - by rewrite Ascii.eqb_refl.
  - intros [Hc Hx]%orb_false_iff. by rewrite Hc, IH.
Qed.

Lemma after_first_app sep x y :
  PyStr.contains sep x = false →
  after_first sep (x +:+ String sep y) = y.
Proof.
  induction x as [|c x IH]; simpl.
  - by rewrite Ascii.eqb_refl.
  - intros [Hc Hx]%orb_false_iff. by rewrite Hc, IH.
Qed.

Lemma lstrip_char_length q s :
  (String.length (lstrip_char q s) ≤ String.length s)%nat.
Proof.
  induction s as [|c s IH]; simpl; [lia|].
  destruct (Ascii.eqb c q); simpl; lia.
Qed.

Lemma lstrip_char_idem q s : lstrip_char q (lstrip_char q s) = lstrip_char q s.
Proof.
  induction s as [|c s IH]; simpl; [done|].
  destruct (Ascii.eqb c q) eqn:Hc; [done|]. simpl. by rewrite Hc.
Qed.

Lemma rstrip_char_idem q s : rstrip_char q (rstrip_char q s) = rstrip_char q s.
Proof.
  induction s as [|c s IH]; simpl; [done|].
  destruct (Ascii.eqb c q && negb (PyStr.truthy (rstrip_char q s))) eqn:Hc;
    [done|].
  simpl. by rewrite IH, Hc.
Qed.

Lemma lstrip_char_rstrip_char_fixed q s :
  lstrip_char q s = s → lstrip_char q (rstrip_char q s) = rstrip_char q s.
Proof.
  destruct s as [|c s]; [done|]. simpl.
  destruct (Ascii.eqb c q) eqn:Hc.
  - intros H. pose proof (lstrip_char_length q s) as Hl.
    rewrite H in Hl. simpl in Hl. lia.
  - intros _. simpl. by rewrite Hc.
Qed.

Lemma strip_char_idem q s : strip_char q (strip_char q s) = strip_char q s.
Proof.
  unfold strip_char.
  rewrite (lstrip_char_rstrip_char_fixed q (lstrip_char q s))
    by apply lstrip_char_idem.
  apply rstrip_char_idem.
Qed.

(** ** Lists of identifiers and the address file *)

Lemma parse_csv_list_nonempty s x : x ∈ parse_csv_list s → x ≠ EmptyString.
Proof.
  unfold parse_csv_list. destruct (PyStr.truthy s); [|intros H; inversion H].
  intros [Hx _]%list_elem_of_filter. by apply truthy_true.
Qed.

(** X1.  Every item [parse_csv_list] returns is non-empty, has no surrounding
    whitespace and holds no comma. *)
Theorem parse_csv_list_items_clean s x :
  x ∈ parse_csv_list s →
  x ≠ EmptyString ∧ PyStr.strip x = x ∧ PyStr.contains "," x = false.
Proof.
  unfold parse_csv_list. destruct (PyStr.truthy s); [|intros H; inversion H].
  intros [Hx (p & -> & Hp)%list_elem_of_fmap]%list_elem_of_filter.
  split; [by apply truthy_true|]. split; [apply strip_idem|].
  destruct (split_pieces _ _ _ Hp) as [Hsep _].
  destruct (PyStr.contains "," (PyStr.strip p)) eqn:Hc; [|done].
  apply contains_strip in Hc. congruence.
Qed.

(** X1 at work: the item [b] of [" a, b ,,c "]. *)
Lemma parse_csv_list_items_clean_witness :
  "b" ≠ EmptyString ∧ PyStr.strip "b" = "b" ∧ PyStr.contains "," "b" = false.
Proof. apply (parse_csv_list_items_clean " a, b ,,c " "b"). decide_closed. Defined.

(** X2.  Round trip: joining items with commas and parsing the result gives the
    items back, provided each item is non-empty, free of surrounding
    whitespace and of commas; the empty list comes back from the empty
    string. *)
Theorem parse_csv_list_join items :
  Forall (λ y, y ≠ EmptyString ∧ PyStr.strip y = y
               ∧ PyStr.contains "," y = false) items →
  parse_csv_list (join "," items) = items.
Proof.
  intros Hall. destruct items as [|x items]; [done|].
  unfold parse_csv_list.
  rewrite join_truthy by (by inversion Hall as [|? ? [? _] _]).
  rewrite split_join by (eapply Forall_impl; [done|]; by intros ? (_ & _ & ?)).
  apply filter_fmap_strip_clean.
  eapply Forall_impl; [done|]. by intros ? (? & ? & _).
Qed.

(** X2 at work: two field identifiers. *)
Lemma parse_csv_list_join_witness :
  parse_csv_list (join "," ["entry.1"; "entry.2"]) = ["entry.1"; "entry.2"].
Proof. apply parse_csv_list_join. decide_closed. Defined.

(** X3.  Every record [read_addresses] returns is non-empty, has no surrounding
    whitespace and holds neither a line feed nor a carriage return. *)
Theorem read_addresses_records_clean o path x :
  x ∈ read_addresses o path →
  x ≠ EmptyString ∧ PyStr.strip x = x
  ∧ PyStr.contains PyStr.newline x = false
  ∧ PyStr.contains PyStr.carriage_return x = false.
Proof.
  unfold read_addresses, file_lines.
  destruct (files o !! path) as [content|]; [|intros H; inversion H].
  intros [Hx (p & -> & Hp)%list_elem_of_fmap]%list_elem_of_filter.
  destruct (split_pieces _ _ _ Hp) as [Hsep Hsub].
  split; [by apply truthy_true|]. split; [apply strip_idem|]. split.
  - destruct (PyStr.contains PyStr.newline (PyStr.strip p)) eqn:Hc; [|done].
    apply contains_strip in Hc. congruence.
  - destruct (PyStr.contains PyStr.carriage_return (PyStr.strip p)) eqn:Hc;
      [|done].
    apply contains_strip, Hsub in Hc.
    rewrite contains_replace_char in Hc; done.
Qed.

(** X3 at work: the second record of the sample file. *)
Lemma read_addresses_records_clean_witness :
  "0xbbb" ≠ EmptyString ∧ PyStr.strip "0xbbb" = "0xbbb"
  ∧ PyStr.contains PyStr.newline "0xbbb" = false
  ∧ PyStr.contains PyStr.carriage_return "0xbbb" = false.
Proof.
  apply (read_addresses_records_clean
           (oracle_answering (Responds response_200)) "address.txt" "0xbbb").
  decide_closed.
Defined.

(** X4.  Round trip: a file that holds one record per line, each ended by a line
    feed, is read back as these records in their order, provided each record
    is non-empty and free of surrounding whitespace and of line ends. *)
Theorem read_addresses_unlines o path records :
  files o !! path = Some (unlines records) →
  Forall (λ y, y ≠ EmptyString ∧ PyStr.strip y = y
               ∧ PyStr.contains PyStr.newline y = false
               ∧ PyStr.contains PyStr.carriage_return y = false) records →
  read_addresses o path = records.
Proof.
  intros Hfile Hall. unfold read_addresses, file_lines. rewrite Hfile.
  rewrite replace_char_absent.
  - rewrite split_unlines
      by (eapply Forall_impl; [done|]; by intros ? (_ & _ & ? & _)).
    rewrite fmap_app, filter_app. simpl.
    rewrite filter_fmap_strip_clean
      by (eapply Forall_impl; [done|]; by intros ? (? & ? & _)).
    rewrite filter_cons_False by done. rewrite filter_nil. apply app_nil_r.
  - apply contains_unlines; [done|].
    eapply Forall_impl; [done|]. by intros ? (_ & _ & _ & ?).
Qed.

(** X4 at work: the sample file of two addresses. *)
Lemma read_addresses_unlines_witness :
  read_addresses (oracle_answering (Responds response_200)) "address.txt"
  = ["0xaaa"; "0xbbb"].
Proof.
  apply read_addresses_unlines; [reflexivity | decide_closed].
Defined.

(** X5.  [read_addresses] returns no record exactly when the file is missing or
    every one of its lines is blank. *)
Theorem read_addresses_nil_iff o path :
  read_addresses o path = []
  ↔ files o !! path = None
    ∨ ∃ content, files o !! path = Some content
        ∧ ∀ line, line ∈ file_lines content → PyStr.strip line = EmptyString.
Proof.
  unfold read_addresses. destruct (files o !! path) as [content|].
  - split.
    + intros Hnil. right. exists content. split; [done|]. intros line Hline.
      destruct (PyStr.strip line) eqn:Hs; [done|].
      assert (PyStr.strip line ∈
                filter (λ s, PyStr.truthy s = true)
                  (PyStr.strip <$> file_lines content)) as Hin.
      { apply list_elem_of_filter. split; [by rewrite Hs|].
        apply list_elem_of_fmap. by exists line. }
      rewrite Hnil in Hin. inversion Hin.
    + intros [?|(content' & [= <-] & Hblank)]; [done|].
      destruct (filter _ _) as [|x l] eqn:Hf; [done|].
      assert (x ∈ x :: l) as Hin by by left.
      rewrite <- Hf in Hin.
      apply list_elem_of_filter in Hin as [Hx (line & -> & Hline)%list_elem_of_fmap].
      rewrite (Hblank line Hline) in Hx. done.
  - split; [by left | done].
Qed.

(** ** The settings file *)

Lemma startswith_strip_before_first line :
  PyStr.lstrip line = line → startswith_char "#" line = false →
  startswith_char "#" (PyStr.strip (before_first "=" line)) = false.
Proof.
  destruct line as [|c rest]; [done|].
  intros Hsp%lstrip_fixed_head Hhash.
  change (before_first "=" (String c rest))
    with (if Ascii.eqb c "=" then EmptyString
          else String c (before_first "=" rest)).
  destruct (Ascii.eqb c "="); [done|].
  unfold PyStr.strip. simpl PyStr.lstrip. rewrite Hsp. simpl PyStr.rstrip.
  rewrite Hsp. simpl. exact Hhash.
Qed.

(** What one line does to the mapping: nothing, or one assignment. *)
Lemma load_env_line_cases env raw :
  load_env_line env raw = env
  ∨ (startswith_char "#" (PyStr.strip raw) = false
     ∧ load_env_line env raw
       = <[PyStr.strip (before_first "=" (PyStr.strip raw))
           := strip_char apostrophe
                (strip_char PyStr.dquote
                   (PyStr.strip (after_first "=" (PyStr.strip raw))))]> env).
Proof.
  unfold load_env_line.
  destruct (PyStr.truthy (PyStr.strip raw)); simpl; [|by left].
  destruct (startswith_char "#" (PyStr.strip raw)) eqn:Hhash; [by left|].
  destruct (PyStr.contains "=" (PyStr.strip raw)) eqn:Heq; simpl; [|by left].
  right. split; [done|]. by rewrite split1_before_after.
Qed.

Lemma foldl_load_env_line_invariant (P : string → string → Prop) lines :
  (∀ raw, startswith_char "#" (PyStr.strip raw) = false →
     P (PyStr.strip (before_first "=" (PyStr.strip raw)))
       (strip_char apostrophe
          (strip_char PyStr.dquote
             (PyStr.strip (after_first "=" (PyStr.strip raw)))))) →
  ∀ env, (∀ k v, env !! k = Some v → P k v) →
  ∀ k v, foldl load_env_line env lines !! k = Some v → P k v.
Proof.
  intros Hline. induction lines as [|raw lines IH]; intros env Henv; simpl;
    [done|].
  apply IH. intros k v.
  destruct (load_env_line_cases env raw) as [->|[Hhash ->]]; [apply Henv|].
  intros [[<- <-]|[_ Hold]]%lookup_insert_Some; [by apply Hline|].
  by apply Henv.
Qed.

(** X6.  Every key [load_env] stores has no surrounding whitespace, holds no [=]
    and does not begin with [#]; every value it stores neither begins nor
    ends with an apostrophe. *)
Theorem load_env_keys_and_values_clean o path k v :
  load_env o path !! k = Some v →
  PyStr.strip k = k ∧ PyStr.contains "=" k = false
  ∧ startswith_char "#" k = false
  ∧ strip_char apostrophe v = v.
Proof.
  unfold load_env. destruct (files o !! path) as [content|]; [|done].
  apply (foldl_load_env_line_invariant
           (λ k v, PyStr.strip k = k ∧ PyStr.contains "=" k = false
                   ∧ startswith_char "#" k = false
                   ∧ strip_char apostrophe v = v)); [|done].
  intros raw Hhash. split; [apply strip_idem|]. split; [|split].
  - destruct (PyStr.contains "=" (PyStr.strip (before_first "=" (PyStr.strip raw))))
      eqn:Hc; [|done].
    apply contains_strip in Hc. by rewrite contains_before_first in Hc.
  - apply startswith_strip_before_first; [|done].
    apply strip_fixed_lstrip, strip_idem.
  - apply strip_char_idem.
Qed.

(** X6 at work: the line [ENTRY_ADDRESS='entry.1']. *)
Lemma load_env_keys_and_values_clean_witness :
  PyStr.strip "ENTRY_ADDRESS" = "ENTRY_ADDRESS"
  ∧ PyStr.contains "=" "ENTRY_ADDRESS" = false
  ∧ startswith_char "#" "ENTRY_ADDRESS" = false
  ∧ strip_char apostrophe "entry.1" = "entry.1".
Proof.
  apply (load_env_keys_and_values_clean
           (oracle_with_env (unlines sample_env_lines)) ".env").
  vm_compute. reflexivity.
Defined.

Lemma strip_assignment_line k v :
  PyStr.strip k = k → PyStr.strip v = v →
  PyStr.strip (assignment_line k v) = assignment_line k v.
Proof.
  intros Hk Hv. unfold assignment_line.
  assert (PyStr.rstrip (String "=" v) = String "=" v) as Hr.
  { simpl. by rewrite (strip_fixed_rstrip v Hv). }
  apply strip_fixed_iff. split.
  - destruct k as [|c k]; [done|].
    apply strip_fixed_lstrip, lstrip_fixed_head in Hk.
    simpl. by rewrite Hk.
  - rewrite rstrip_app by by rewrite Hr. by rewrite Hr.
Qed.

Lemma load_env_line_assignment env k v :
  clean_env_key k → clean_env_value v →
  load_env_line env (assignment_line k v) = <[k := v]> env.
Proof.
  intros (Hk & Heq & Hhash) (Hv & Hdq & Hap).
  unfold load_env_line. rewrite strip_assignment_line by done.
  unfold assignment_line.
  rewrite truthy_app_r by done.
  assert (startswith_char "#" (k +:+ String "=" v) = false) as ->.
  { destruct k; [done | exact Hhash]. }
  rewrite contains_app, contains_cons. simpl negb.
  rewrite orb_true_r. simpl.
  rewrite split1_before_after
    by (rewrite contains_app, contains_cons; apply orb_true_r).
  rewrite before_first_app, after_first_app by done.
  by rewrite Hk, Hv, Hdq, Hap.
Qed.

Lemma no_line_end_assignment k v :
  no_line_end k → no_line_end v → no_line_end (assignment_line k v).
Proof.
  intros [Hk1 Hk2] [Hv1 Hv2]. unfold no_line_end, assignment_line.
  rewrite !contains_app, !contains_cons, Hk1, Hk2, Hv1, Hv2. done.
Qed.

(** X7.  Round trip through the settings file: when the last line of [.env] is
    [KEY=VALUE], with a key and a value that [load_env] leaves unchanged,
    [load_env] maps the key to the value whatever the earlier lines say, and
    [getenv] returns it whatever the process environment and the default
    are. *)
Theorem last_assignment_decides_getenv o environ lines k v default :
  files o !! ".env" = Some (unlines (lines ++ [assignment_line k v])) →
  Forall no_line_end lines → no_line_end k → no_line_end v →
  clean_env_key k → clean_env_value v →
  load_env o ".env" !! k = Some v
  ∧ getenv (script_environment o environ) k default = v.
Proof.
  intros Hfile Hlines Hk Hv Hck Hcv.
  assert (load_env o ".env" !! k = Some v) as Hload.
  { unfold load_env, file_lines. rewrite Hfile.
    assert (Forall no_line_end (lines ++ [assignment_line k v])) as Hall.
    { apply Forall_app. split; [done|]. apply Forall_singleton.
      by apply no_line_end_assignment. }
    rewrite replace_char_absent.
    - rewrite split_unlines
        by (eapply Forall_impl; [done|]; by intros ? [? _]).
      rewrite !foldl_app. simpl.
      rewrite load_env_line_assignment by done.
      apply lookup_insert_eq.
    - apply contains_unlines; [done|].
      eapply Forall_impl; [done|]. by intros ? [_ ?]. }
  split; [done|].
  unfold getenv, getenv_raw, script_environment. simpl. by rewrite Hload.
Qed.

(** X7 at work: [FVV=2] after an earlier [FVV = 0]. *)
Lemma last_assignment_decides_getenv_witness :
  let o := oracle_with_env
             (unlines (sample_env_lines ++ [assignment_line "FVV" "2"])) in
  load_env o ".env" !! "FVV" = Some "2"
  ∧ getenv (script_environment o ∅) "FVV" "1" = "2".
Proof.
  apply (last_assignment_decides_getenv _ ∅ sample_env_lines "FVV" "2" "1").
  - reflexivity.
  - decide_closed.
  - by vm_compute.
  - by vm_compute.
  - by vm_compute.
  - by vm_compute.
Defined.

Lemma extra_fields_from_env_S e n :
  extra_fields_from_env e (S n)
  = extra_fields_step e (extra_fields_from_env e n) (S n).
Proof.
  unfold extra_fields_from_env. by rewrite seq_S, foldl_app.
Qed.

(** X8.  Every pair of [extra_fields_from_env] comes from an index between 1 and
    [max_n] whose key setting is non-empty, with the value of that index,
    and no higher index has the same key: of two extra fields with one key
    the higher-numbered one is sent. *)
Theorem extra_field_comes_from_last_index e max_n k v :
  extra_fields_from_env e max_n !! k = Some v →
  ∃ i, (1 ≤ i ≤ max_n)%nat
    ∧ extra_field_key e i = k ∧ k ≠ EmptyString
    ∧ extra_field_value e i = v
    ∧ ∀ j, (i < j ≤ max_n)%nat → extra_field_key e j ≠ k.
Proof.
  induction max_n as [|n IH]; [done|].
  rewrite extra_fields_from_env_S. unfold extra_fields_step.
  destruct (PyStr.truthy (extra_field_key e (S n))) eqn:Hkey.
  - intros [[<- <-]|[Hne Hold]]%lookup_insert_Some.
    + exists (S n). repeat split; [lia|lia|by apply truthy_true|].
      intros j Hj. lia.
    + destruct (IH Hold) as (i & Hi & Hk & Hnonempty & Hv & Hlater).
      exists i. repeat split; [lia|lia|done|done|done|].
      intros j Hj. destruct (decide (j = S n)) as [->|]; [done|].
      apply Hlater. lia.
  - intros Hold.
    destruct (IH Hold) as (i & Hi & Hk & Hnonempty & Hv & Hlater).
    exists i. repeat split; [lia|lia|done|done|done|].
    intros j Hj. destruct (decide (j = S n)) as [->|].
    + intros Heq. rewrite Heq in Hkey. by apply truthy_true in Hnonempty;
        rewrite Hnonempty in Hkey.
    + apply Hlater. lia.
Qed.

(** X8 at work: the key shared by the second and the third extra field. *)
Lemma extra_field_comes_from_last_index_witness :
  ∃ i, (1 ≤ i ≤ 20)%nat
    ∧ extra_field_key (env_of env_extras_shadowed) i = "entry.7"
    ∧ extra_field_value (env_of env_extras_shadowed) i = "second".
Proof.
  destruct (extra_field_comes_from_last_index (env_of env_extras_shadowed) 20
              "entry.7" "second") as (i & Hi & Hk & _ & Hv & _).
  - by vm_compute.
  - by exists i.
Defined.

(** ** More on the payload *)

(** X9.  A populated [FVV], [PAGE_HISTORY] or [FBZX] always reaches the payload
    under [fvv], [pageHistory] or [fbzx] with its own value: no field
    setting named like one of them can replace it. *)
Theorem protocol_parameters_take_precedence c username address :
  (FVV c ≠ EmptyString →
   build_payload c username address !! "fvv" = Some (FVV c))
  ∧ (PAGE_HISTORY c ≠ EmptyString →
     build_payload c username address !! "pageHistory" = Some (PAGE_HISTORY c))
  ∧ (FBZX c ≠ EmptyString →
     build_payload c username address !! "fbzx" = Some (FBZX c)).
Proof.
  rewrite build_payload_stages.
  unfold payload_after_checkboxes, payload_after_extras.
  rewrite !lookup_assign_if.
  repeat split; intros H%truthy_true; rewrite H; simpl;
    rewrite ?andb_false_r; reflexivity.
Qed.

(** X9 at work: the two defaults and [FBZX=xyz]. *)
Lemma protocol_parameters_take_precedence_witness :
  let payload := build_payload (config_of env_fbzx_xyz) "bebas1234" "0xabc" in
  payload !! "fvv" = Some "1" ∧ payload !! "pageHistory" = Some "0"
  ∧ payload !! "fbzx" = Some "xyz".
Proof.
  destruct (protocol_parameters_take_precedence
              (config_of env_fbzx_xyz) "bebas1234" "0xabc")
    as (Hfvv & Hpage & Hfbzx).
  split; [|split].
  - apply Hfvv. by vm_compute.
  - apply Hpage. by vm_compute.
  - apply Hfbzx. by vm_compute.
Defined.

Lemma extra_fields_foldl_keys_nonempty e l (m : gmap string string) :
  m !! EmptyString = None →
  foldl (extra_fields_step e) m l !! EmptyString = None.
Proof.
  revert m. induction l as [|i l IH]; intros m Hm; simpl; [done|].
  apply IH. unfold extra_fields_step.
  destruct (PyStr.truthy (extra_field_key e i)) eqn:Hk; [|done].
  rewrite lookup_insert_ne; [done|]. intros Heq. by rewrite Heq in Hk.
Qed.

Lemma app_sentinel_nonempty x : x +:+ "_sentinel" ≠ EmptyString.
Proof. by destruct x. Qed.

(** X10.  A payload built from a configuration that was loaded from the
    environment never holds the empty string as a key. *)
Theorem loaded_config_never_sends_empty_key e n username address :
  build_payload (load_config e n) username address !! EmptyString = None.
Proof.
  apply eq_None_not_Some. rewrite build_payload_is_Some.
  intros [Hnamed|(_ & x & _ & Hx)].
  - unfold named_keys, keys_before_checkboxes, keys_after_checkboxes,
      flag_keys, protocol_keys in Hnamed.
    rewrite !elem_of_app, !elem_of_key_if, elem_of_extra_keys in Hnamed.
    rewrite !andb_true_iff, !truthy_true in Hnamed. simpl in Hnamed.
    destruct Hnamed as
      [[[[? _] ?]|[[[? _] ?]|?]]
      |[?|[[[? ?]|[[? ?] ?]]|[[[? ?]|[[? ?] ?]]|[Hex|Hproto]]]]];
      try congruence.
    + by eapply parse_csv_list_nonempty.
    + by eapply parse_csv_list_nonempty.
    + destruct Hex as [v Hv]. unfold extra_fields_from_env in Hv.
      by rewrite extra_fields_foldl_keys_nonempty in Hv.
    + destruct Hproto as [[_ ?]|[[_ ?]|[[_ ?]|[_ ?]]]]; done.
  - symmetry in Hx. by apply app_sentinel_nonempty in Hx.
Qed.

(** X11.  When at least one field setting is populated, the record is non-empty
    and a username is supplied whenever the username field is set, the
    payload holds at least one key. *)
Theorem validated_payload_not_empty c username address :
  any_field_configured c = true →
  address ≠ EmptyString →
  (ENTRY_USERNAME c ≠ EmptyString → username ≠ EmptyString) →
  build_payload c username address ≠ ∅.
Proof.
  intros Hany Haddr Huser.
  assert (∃ k, k ∈ named_keys c username address) as [k Hk].
  { unfold any_field_configured in Hany.
    unfold named_keys, keys_before_checkboxes, keys_after_checkboxes, flag_keys.
    setoid_rewrite elem_of_app. setoid_rewrite elem_of_app.
    repeat (apply orb_true_iff in Hany as [Hany|Hany]).
    - exists (ENTRY_USERNAME c). left; left. apply elem_of_key_if.
      split; [|done]. rewrite Hany. simpl. apply truthy_true, Huser.
      by apply truthy_true.
    - exists (ENTRY_ADDRESS c). left; right.
      apply elem_of_app. left. apply elem_of_key_if.
      split; [|done]. rewrite Hany. simpl. by apply truthy_true.
    - exists (ENTRY_YES c). right; right. apply elem_of_app. left.
      apply elem_of_app. left. by apply elem_of_key_if.
    - exists (ENTRY_DONE c). right; right. apply elem_of_app. right.
      apply elem_of_app. left. apply elem_of_app. left.
      by apply elem_of_key_if.
    - apply bool_decide_eq_true in Hany.
      destruct (ADDRESS_KEYS c) as [|k ks] eqn:Hkeys; [done|].
      exists k. left; right. apply elem_of_app. right. by left.
    - apply bool_decide_eq_true in Hany.
      destruct (CHECKBOX_KEYS c) as [|k ks] eqn:Hkeys; [done|].
      exists k. right; left. by left.
    - apply bool_decide_eq_true in Hany.
      destruct (map_choose _ Hany) as (k & v & Hkv).
      exists k. right; right. apply elem_of_app. right.
      apply elem_of_app. right. apply elem_of_app. left.
      apply elem_of_extra_keys. by exists v. }
  intros Hempty.
  assert (is_Some (build_payload c username address !! k)) as [v Hv].
  { apply build_payload_is_Some. by left. }
  by rewrite Hempty, lookup_empty in Hv.
Qed.

(** X11 at work: only the legacy address field is set. *)
Lemma validated_payload_not_empty_witness :
  build_payload (config_of env_one_address_field) EmptyString "0xaaa" ≠ ∅.
Proof.
  apply validated_payload_not_empty.
  - reflexivity.
  - by vm_compute.
  - intros H. exfalso. revert H. by vm_compute.
Defined.

(** ** More on the session and the username *)

Lemma cookie_pairs_no_semicolon raw p :
  p ∈ cookie_pairs raw → PyStr.contains ";" p = false.
Proof.
  unfold cookie_pairs.
  intros [_ (piece & -> & Hpiece)%list_elem_of_fmap]%list_elem_of_filter.
  destruct (split_pieces _ _ _ Hpiece) as [Hsep _].
  destruct (PyStr.contains ";" (PyStr.strip piece)) eqn:Hc; [|done].
  apply contains_strip in Hc. congruence.
Qed.

Lemma foldl_cookie_dict_step_invariant (P : string → string → Prop) pairs :
  (∀ p, p ∈ pairs → P (cookie_name_value p).1 (cookie_name_value p).2) →
  ∀ d, (∀ k v, d !! k = Some v → P k v) →
  ∀ k v, foldl cookie_dict_step d pairs !! k = Some v → P k v.
Proof.
  induction pairs as [|p pairs IH]; intros Hpairs d Hd; simpl; [done|].
  apply IH; [intros q Hq; apply Hpairs; by right|].
  intros k v. rewrite cookie_dict_step_spec.
  destruct (PyStr.contains "=" p); [|apply Hd].
  intros [[<- <-]|[_ Hold]]%lookup_insert_Some; [|by apply Hd].
  apply Hpairs. by left.
Qed.

(** X12.  Every cookie name and value [mk_session] parses has no surrounding
    whitespace and holds no [;]; a name holds no [=] either. *)
Theorem cookie_names_and_values_clean raw name value :
  parse_cookies raw !! name = Some value →
  PyStr.strip name = name ∧ PyStr.strip value = value
  ∧ PyStr.contains "=" name = false
  ∧ PyStr.contains ";" name = false ∧ PyStr.contains ";" value = false.
Proof.
  unfold parse_cookies.
  apply (foldl_cookie_dict_step_invariant
           (λ name value,
              PyStr.strip name = name ∧ PyStr.strip value = value
              ∧ PyStr.contains "=" name = false
              ∧ PyStr.contains ";" name = false
              ∧ PyStr.contains ";" value = false)); [|done].
  intros p Hp%cookie_pairs_no_semicolon. unfold cookie_name_value. simpl.
  split; [apply strip_idem|]. split; [apply strip_idem|].
  split; [|split].
  - destruct (PyStr.contains "=" (PyStr.strip (before_first "=" p))) eqn:Hc;
      [|done].
    apply contains_strip in Hc. by rewrite contains_before_first in Hc.
  - destruct (PyStr.contains ";" (PyStr.strip (before_first "=" p))) eqn:Hc;
      [|done].
    apply contains_strip, contains_before_first_sub in Hc. congruence.
  - destruct (PyStr.contains ";" (PyStr.strip (after_first "=" p))) eqn:Hc;
      [|done].
    apply contains_strip, contains_after_first_sub in Hc. congruence.
Qed.

(** X12 at work: the cookie [b=2] of ["a=1; b=2"]. *)
Lemma cookie_names_and_values_clean_witness :
  PyStr.strip "b" = "b" ∧ PyStr.strip "2" = "2"
  ∧ PyStr.contains "=" "b" = false
  ∧ PyStr.contains ";" "b" = false ∧ PyStr.contains ";" "2" = false.
Proof.
  apply (cookie_names_and_values_clean "a=1; b=2"). reflexivity.
Defined.

Lemma is_digit_pretty_N_char x : is_digit (pretty_N_char x) = true.
Proof. unfold pretty_N_char. by repeat case_match. Qed.

Lemma pretty_four_digits z :
  1000 ≤ z ≤ 9999 →
  ∃ d1 d2 d3 d4,
    pretty z = String d1 (String d2 (String d3 (String d4 EmptyString)))
    ∧ is_digit d1 = true ∧ is_digit d2 = true
    ∧ is_digit d3 = true ∧ is_digit d4 = true.
Proof.
  intros Hz. destruct z as [|p|p]; [lia| |lia].
  unfold pretty, pretty_Z, pretty, pretty_positive, pretty, pretty_N.
  rewrite decide_False by done.
  assert (1000 ≤ N.pos p ≤ 9999)%N as Hp by lia.
  assert (0 < N.pos p `div` 10)%N by (apply N.div_str_pos; lia).
  assert (100 ≤ N.pos p `div` 10 < 1000)%N as H1.
  { split; [apply N.div_le_lower_bound | apply N.Div0.div_lt_upper_bound]; lia. }
  assert (10 ≤ (N.pos p `div` 10) `div` 10 < 100)%N as H2.
  { split; [apply N.div_le_lower_bound | apply N.Div0.div_lt_upper_bound]; lia. }
  assert (1 ≤ ((N.pos p `div` 10) `div` 10) `div` 10 < 10)%N as H3.
  { split; [apply N.div_le_lower_bound | apply N.Div0.div_lt_upper_bound]; lia. }
  assert ((((N.pos p `div` 10) `div` 10) `div` 10) `div` 10 = 0)%N as H4.
  { apply N.div_small. lia. }
  rewrite 4!pretty_N_go_step by lia. rewrite H4, pretty_N_go_0.
  eexists _, _, _, _. split; [reflexivity|].
  repeat split; apply is_digit_pretty_N_char.
Qed.

(** X13.  [gen_username] returns the prefix followed by exactly four decimal
    digits, and neither posts nor writes anything. *)
Theorem gen_username_prefix_and_four_digits o prefix w :
  ∃ d1 d2 d3 d4 w',
    gen_username o prefix w
    = (Returns (prefix +:+
                String d1 (String d2 (String d3 (String d4 EmptyString)))),
       w')
    ∧ is_digit d1 = true ∧ is_digit d2 = true
    ∧ is_digit d3 = true ∧ is_digit d4 = true
    ∧ events w' = events w ∧ posts_made w' = posts_made w.
Proof.
  unfold gen_username, random_randint_1000_9999, mbind, M_bind, mret, M_ret.
  destruct (pretty_four_digits (1000 + random_draw o (random_draws w) `mod` 9000))
    as (d1 & d2 & d3 & d4 & Hpretty & H1 & H2 & H3 & H4).
  { pose proof (Z.mod_pos_bound (random_draw o (random_draws w)) 9000). lia. }
  exists d1, d2, d3, d4. eexists. rewrite Hpretty.
  split; [reflexivity|]. done.
Qed.

(** ** The retry loop in general *)

Lemma slept_app evs1 evs2 : slept (evs1 ++ evs2) = (slept evs1 ++ slept evs2)%list.
Proof. unfold slept. apply omap_app. Qed.

Lemma retry_sleep_ok attempt w :
  0 ≤ attempt →
  time_sleep_int (1 + attempt) w
  = emit (Sleep (inject_Z (1 + attempt))) w.
Proof.
  intros H. unfold time_sleep_int.
  by destruct (Z.leb_spec 0 (1 + attempt)); [|lia].
Qed.

(** One failed attempt at transport level: the POST, the warning, the
    sleep, and on to the next attempt. *)
Lemma submit_attempts_transport_failure c o s payload remaining attempt last w e :
  0 ≤ attempt →
  http_post o (posts_made w) = Fails e → is_request_exception e = true →
  submit_attempts c o s payload (S remaining) attempt last w
  = submit_attempts c o s payload remaining (attempt + 1) (Some e)
      {| events := events w
                   ++ [Post s (FORM_RESPONSE_URL c) payload (TIMEOUT c);
                       Print (warn_line c attempt e);
                       Sleep (inject_Z (1 + attempt))];
         posts_made := S (posts_made w);
         clock_reads := clock_reads w;
         random_draws := random_draws w |}.
Proof.
  intros Hattempt Hpost Hreq. simpl.
  unfold try_except at 1, session_post at 1. rewrite Hpost, Hreq.
  unfold mbind, M_bind, print. simpl.
  rewrite retry_sleep_ok by done. simpl.
  rewrite <- !app_assoc. reflexivity.
Qed.

Lemma submit_attempts_after_failures c o s payload k :
  ∀ remaining attempt last w,
    0 ≤ attempt → transport_failures o (posts_made w) k →
    ∃ wk lastk,
      submit_attempts c o s payload (k + remaining) attempt last w
      = submit_attempts c o s payload remaining (attempt + Z.of_nat k) lastk wk
      ∧ posts_made wk = (posts_made w + k)%nat
      ∧ slept (events wk) = (slept (events w) ++ backoff attempt k)%list
      ∧ log_rows (events wk) = log_rows (events w)
      ∧ match k with
        | O => lastk = last
        | S k' => ∃ e, lastk = Some e
                       ∧ http_post o (posts_made w + k')%nat = Fails e
        end.
Proof.
  induction k as [|k IH]; intros remaining attempt last w Hattempt Hfail.
  - exists w, last. rewrite Z.add_0_r, Nat.add_0_r. unfold backoff. simpl.
    by rewrite !app_nil_r.
  - destruct (Hfail 0%nat) as (e & Hpost & Hreq); [lia|].
    rewrite Nat.add_0_r in Hpost.
    change (S k + remaining)%nat with (S (k + remaining)).
    rewrite (submit_attempts_transport_failure _ _ _ _ _ _ _ _ e) by done.
    match goal with |- context [submit_attempts _ _ _ _ _ _ _ ?w0] =>
      destruct (IH remaining (attempt + 1) (Some e) w0)
        as (wk & lastk & Hrun & Hposts & Hslept & Hrows & Hlast)
    end.
    { lia. }
    { intros i Hi. simpl. destruct (Hfail (S i)) as (e' & He' & Hreq'); [lia|].
      exists e'. split; [|done]. rewrite <- He'. f_equal. lia. }
    exists wk, lastk. rewrite Hrun. simpl in Hposts, Hslept, Hrows.
    split; [f_equal; lia|]. split; [lia|]. split; [|split].
    + rewrite Hslept, slept_app. simpl. rewrite <- app_assoc. f_equal.
      unfold backoff. simpl. f_equal.
      * by rewrite Z.add_0_r.
      * rewrite <- seq_shift, <- list_fmap_compose. apply list_fmap_ext.
        intros _ i _. simpl. f_equal. lia.
    + rewrite Hrows, log_rows_app. simpl. apply app_nil_r.
    + destruct k as [|k'].
      * exists e. split; [done|]. by rewrite Nat.add_0_r.
      * destruct Hlast as (e' & -> & He'). exists e'. split; [done|].
        rewrite <- He'. simpl. f_equal. lia.
Qed.

(** X14.  When [MAX_RETRIES] is [n + 1] and every attempt fails at transport
    level, [submit_with_retries] makes exactly [n + 1] POSTs, sleeps
    2, 3, ..., [n + 2] seconds after them in turn (also after the last),
    writes no row and raises the exception of the last POST. *)
Theorem every_attempt_fails c o s payload w n :
  MAX_RETRIES c = Z.of_nat (S n) →
  transport_failures o (posts_made w) (S n) →
  ∃ e w', submit_with_retries c o s payload w = (Raises e, w')
    ∧ http_post o (posts_made w + n)%nat = Fails e
    ∧ posts_made w' = (posts_made w + S n)%nat
    ∧ slept (events w') = (slept (events w) ++ backoff 1 (S n))%list
    ∧ log_rows (events w') = log_rows (events w).
Proof.
  intros Hmax Hfail. unfold submit_with_retries. rewrite Hmax, Nat2Z.id.
  destruct (submit_attempts_after_failures c o s payload (S n) 0%nat 1 None w)
    as (wk & lastk & Hrun & Hposts & Hslept & Hrows & e & -> & He);
    [lia|done|].
  rewrite Nat.add_0_r in Hrun. rewrite Hrun. simpl.
  by exists e, wk.
Qed.

(** X14 at work: three attempts, all refused. *)
Lemma every_attempt_fails_witness :
  ∃ e w',
    submit_with_retries (load_config (env_of env_one_address_field) three_retries)
      (oracle_answering (Fails connection_error)) plain_session ∅ initial_world
    = (Raises e, w')
    ∧ e = connection_error ∧ posts_made w' = 3%nat
    ∧ slept (events w') = [inject_Z 2; inject_Z 3; inject_Z 4].
Proof.
  destruct (every_attempt_fails
              (load_config (env_of env_one_address_field) three_retries)
              (oracle_answering (Fails connection_error)) plain_session ∅
              initial_world 2)
    as (e & w' & Hrun & He & Hposts & Hslept & _).
  - reflexivity.
  - intros i _. exists connection_error. split; reflexivity.
  - exists e, w'. split; [exact Hrun|]. split; [|split].
    + simpl in He. by injection He.
    + exact Hposts.
    + exact Hslept.
Defined.

(** X15.  When the first [k] attempts fail at transport level and the next one,
    still within [MAX_RETRIES], receives a response, that response is
    returned after exactly [k + 1] POSTs and [k] sleeps. *)
Theorem first_response_ends_the_retries c o s payload w k resp :
  transport_failures o (posts_made w) k →
  http_post o (posts_made w + k)%nat = Responds resp →
  Z.of_nat k < MAX_RETRIES c →
  ∃ w', submit_with_retries c o s payload w = (Returns resp, w')
    ∧ posts_made w' = (posts_made w + k + 1)%nat
    ∧ slept (events w') = (slept (events w) ++ backoff 1 k)%list.
Proof.
  intros Hfail Hresp Hk. unfold submit_with_retries.
  replace (Z.to_nat (MAX_RETRIES c))
    with (k + S (Z.to_nat (MAX_RETRIES c) - S k))%nat by lia.
  destruct (submit_attempts_after_failures c o s payload k
              (S (Z.to_nat (MAX_RETRIES c) - S k)) 1 None w)
    as (wk & lastk & Hrun & Hposts & Hslept & _); [lia|done|].
  rewrite Hrun. simpl. unfold try_except, session_post.
  rewrite Hposts, Hresp. eexists. split; [reflexivity|]. simpl.
  split; [lia|]. rewrite slept_app, Hslept. simpl. by rewrite app_nil_r.
Qed.

(** X15 at work: one refused connection, then a response. *)
Lemma first_response_ends_the_retries_witness :
  ∃ w',
    submit_with_retries (config_of env_one_address_field)
      (oracle_failing_first 1) plain_session ∅ initial_world
    = (Returns response_200, w')
    ∧ posts_made w' = 2%nat ∧ slept (events w') = [inject_Z 2].
Proof.
  apply (first_response_ends_the_retries (config_of env_one_address_field)
           (oracle_failing_first 1) plain_session ∅ initial_world 1).
  - intros i Hi. exists connection_error.
    destruct i as [|i]; [split; reflexivity | lia].
  - reflexivity.
  - by vm_compute.
Defined.

(** X16.  An exception of [session.post] that is not a [RequestException] is
    raised at once, at whatever attempt it occurs: no sleep and no further
    POST follow it. *)
Theorem other_exception_is_not_retried c o s payload w k e :
  transport_failures o (posts_made w) k →
  http_post o (posts_made w + k)%nat = Fails e →
  is_request_exception e = false →
  Z.of_nat k < MAX_RETRIES c →
  ∃ w', submit_with_retries c o s payload w = (Raises e, w')
    ∧ posts_made w' = (posts_made w + k + 1)%nat
    ∧ slept (events w') = (slept (events w) ++ backoff 1 k)%list.
Proof.
  intros Hfail Hpost Hreq Hk. unfold submit_with_retries.
  replace (Z.to_nat (MAX_RETRIES c))
    with (k + S (Z.to_nat (MAX_RETRIES c) - S k))%nat by lia.
  destruct (submit_attempts_after_failures c o s payload k
              (S (Z.to_nat (MAX_RETRIES c) - S k)) 1 None w)
    as (wk & lastk & Hrun & Hposts & Hslept & _); [lia|done|].
  rewrite Hrun. simpl. unfold try_except, session_post.
  rewrite Hposts, Hpost, Hreq. eexists. split; [reflexivity|]. simpl.
  split; [lia|]. rewrite slept_app, Hslept. simpl. by rewrite app_nil_r.
Qed.

(** X16 at work: an encoding error at the first attempt. *)
Lemma other_exception_is_not_retried_witness :
  ∃ w',
    submit_with_retries (config_of env_one_address_field)
      (oracle_answering (Fails encoding_error)) plain_session ∅ initial_world
    = (Raises encoding_error, w')
    ∧ posts_made w' = 1%nat ∧ slept (events w') = [].
Proof.
  apply (other_exception_is_not_retried (config_of env_one_address_field)
           (oracle_answering (Fails encoding_error)) plain_session ∅
           initial_world 0).
  - intros i Hi. lia.
  - reflexivity.
  - reflexivity.
  - by vm_compute.
Defined.

(** The retry loop from any state: how many POSTs it makes and whose
    outcome it hands back. *)
Lemma submit_attempts_outcome c o s payload remaining :
  ∀ attempt last w r w',
    0 ≤ attempt →
    submit_attempts c o s payload remaining attempt last w = (r, w') →
    ∃ n, (n ≤ remaining)%nat
      ∧ posts_made w' = (posts_made w + n)%nat
      ∧ clock_reads w' = clock_reads w
      ∧ random_draws w' = random_draws w
      ∧ match r with
        | Returns resp =>
            ∃ m, n = S m ∧ http_post o (posts_made w + m)%nat = Responds resp
        | Raises e =>
            (n = 0%nat ∧ remaining = 0%nat
             ∧ e = match last with Some e' => e' | None => request_failed end)
            ∨ (∃ m, n = S m ∧ http_post o (posts_made w + m)%nat = Fails e)
        end.
Proof.
  induction remaining as [|remaining IH]; intros attempt last w r w' Hattempt.
  - simpl. unfold raise. intros [= <- <-]. exists 0%nat.
    rewrite Nat.add_0_r. repeat split; [lia|]. by left.
  - destruct (http_post o (posts_made w)) as [resp|e] eqn:Hpost.
    + simpl. unfold try_except, session_post. rewrite Hpost.
      intros [= <- <-]. exists 1%nat. simpl.
      repeat split; [lia|lia|]. exists 0%nat. by rewrite Nat.add_0_r.
    + destruct (is_request_exception e) eqn:Hreq.
      * rewrite (submit_attempts_transport_failure _ _ _ _ _ _ _ _ e) by done.
        intros Hrun. apply IH in Hrun as (n & Hn & Hposts & Hclock & Hrand & Hr);
          [|lia].
        simpl in Hposts, Hclock, Hrand. exists (S n).
        repeat split; [lia|lia|done|done|].
        destruct r as [resp|e'].
        -- destruct Hr as (m & -> & Hm). exists (S m). split; [done|].
           rewrite <- Hm. simpl. f_equal. lia.
        -- right. destruct Hr as [(-> & -> & ->)|(m & -> & Hm)].
           ++ exists 0%nat. by rewrite Nat.add_0_r.
           ++ exists (S m). split; [done|]. rewrite <- Hm. simpl. f_equal. lia.
      * simpl. unfold try_except, session_post. rewrite Hpost, Hreq.
        intros [= <- <-]. exists 1%nat. simpl.
        repeat split; [lia|lia|]. right. exists 0%nat.
        by rewrite Nat.add_0_r.
Qed.

(** X17.  Whatever the network does, [submit_with_retries] makes at most
    [MAX_RETRIES] POSTs, and at least one when [MAX_RETRIES] is positive. *)
Theorem posts_bounded_by_max_retries c o s payload w r w' :
  submit_with_retries c o s payload w = (r, w') →
  (posts_made w ≤ posts_made w' ≤ posts_made w + Z.to_nat (MAX_RETRIES c))%nat
  ∧ (1 ≤ MAX_RETRIES c → (posts_made w < posts_made w')%nat).
Proof.
  intros Hrun. apply submit_attempts_outcome in Hrun
    as (n & Hn & Hposts & _ & _ & Hr); [|lia].
  split; [lia|]. intros Hmax.
  destruct r as [resp|e].
  - destruct Hr as (m & -> & _). lia.
  - destruct Hr as [(_ & Hzero & _)|(m & -> & _)]; lia.
Qed.

(** X17 at work: two refused connections under the default of two attempts. *)
Lemma posts_bounded_by_max_retries_witness :
  let run := submit_with_retries (config_of env_one_address_field)
               (oracle_answering (Fails connection_error)) plain_session ∅
               initial_world in
  (0 ≤ posts_made run.2 ≤ 2)%nat ∧ (0 < posts_made run.2)%nat.
Proof.
  intros run.
  destruct (posts_bounded_by_max_retries (config_of env_one_address_field)
              (oracle_answering (Fails connection_error)) plain_session ∅
              initial_world run.1 run.2) as [Hbound Hpos].
  - apply surjective_pairing.
  - split; [exact Hbound|]. apply Hpos. by vm_compute.
Defined.

(** X18.  What [submit_with_retries] returns or raises is the outcome of the last
    POST it made; only when [MAX_RETRIES] is not positive does it raise the
    generic [RuntimeError], having done nothing. *)
Theorem result_is_the_last_outcome c o s payload w r w' :
  submit_with_retries c o s payload w = (r, w') →
  match r with
  | Returns resp => http_post o (posts_made w' - 1)%nat = Responds resp
  | Raises e =>
      (MAX_RETRIES c ≤ 0 ∧ e = request_failed ∧ w' = w)
      ∨ (1 ≤ MAX_RETRIES c ∧ http_post o (posts_made w' - 1)%nat = Fails e)
  end.
Proof.
  intros Hrun.
  destruct (decide (MAX_RETRIES c ≤ 0)) as [Hmax|Hmax].
  - unfold submit_with_retries in Hrun.
    replace (Z.to_nat (MAX_RETRIES c)) with 0%nat in Hrun by lia.
    injection Hrun as <- <-. by left.
  - pose proof Hrun as Hrun'.
    apply submit_attempts_outcome in Hrun
      as (n & Hn & Hposts & _ & _ & Hr); [|lia].
    destruct r as [resp|e].
    + destruct Hr as (m & -> & Hm). rewrite Hposts.
      by replace (posts_made w + S m - 1)%nat with (posts_made w + m)%nat by lia.
    + right. split; [lia|].
      destruct Hr as [(_ & Hzero & _)|(m & -> & Hm)]; [lia|].
      rewrite Hposts.
      by replace (posts_made w + S m - 1)%nat with (posts_made w + m)%nat by lia.
Qed.

(** X18 at work: a response at the second attempt. *)
Lemma result_is_the_last_outcome_witness :
  let run := submit_with_retries (config_of env_one_address_field)
               (oracle_failing_first 1) plain_session ∅ initial_world in
  run.1 = Returns response_200
  ∧ http_post (oracle_failing_first 1) (posts_made run.2 - 1)
    = Responds response_200.
Proof.
  intros run. split; [reflexivity|].
  exact (result_is_the_last_outcome (config_of env_one_address_field)
           (oracle_failing_first 1) plain_session ∅ initial_world
           (Returns response_200) run.2 (surjective_pairing run)).
Defined.

(** ** The events of a run *)

Lemma grows_by_refl P w : grows_by P w w.
Proof. exists []. by rewrite app_nil_r. Qed.

Lemma grows_by_trans P w1 w2 w3 :
  grows_by P w1 w2 → grows_by P w2 w3 → grows_by P w1 w3.
Proof.
  intros (evs1 & H1 & HP1) (evs2 & H2 & HP2). exists (evs1 ++ evs2)%list.
  split; [by rewrite H2, H1, app_assoc | by apply Forall_app].
Qed.

Lemma grows_by_weaken (P Q : event → Prop) w w' :
  (∀ ev, P ev → Q ev) → grows_by P w w' → grows_by Q w w'.
Proof.
  intros HPQ (evs & H & HP). exists evs. split; [done|].
  by eapply Forall_impl.
Qed.

Lemma grows_by_events P w w' evs :
  events w' = (events w ++ evs)%list → Forall P evs → grows_by P w w'.
Proof. intros. by exists evs. Qed.

Lemma submit_attempts_events c o s payload remaining :
  ∀ attempt last w r w',
    submit_attempts c o s payload remaining attempt last w = (r, w') →
    grows_by (submit_event c s payload) w w'.
Proof.
  induction remaining as [|n IH]; intros attempt last w r w'; simpl.
  - unfold raise. intros [= _ <-]. apply grows_by_refl.
  - unfold try_except, session_post.
    destruct (http_post o (posts_made w)) as [resp|e].
    + intros [= _ <-]. eapply grows_by_events; [reflexivity|].
      by repeat constructor.
    + destruct (is_request_exception e).
      * unfold mbind, M_bind, print, emit, time_sleep_int. simpl.
        destruct (0 <=? 1 + attempt).
        -- simpl. intros H%IH. eapply grows_by_trans; [|exact H].
           eapply grows_by_events; [simpl; by rewrite <- !app_assoc|].
           by repeat constructor.
        -- unfold raise. intros [= _ <-].
           eapply grows_by_events; [simpl; by rewrite <- !app_assoc|].
           by repeat constructor.
      * intros [= _ <-]. eapply grows_by_events; [reflexivity|].
        by repeat constructor.
Qed.

(** The [try] statement of the loop, run to its end: whatever the
    submission did, one print and one row follow, and nothing is raised. *)
Lemma submit_and_log_run c o s username addr payload w r w1 :
  submit_with_retries c o s payload w = (r, w1) →
  ∃ line w2,
    submit_and_log c o s username addr payload w = (Returns tt, w2)
    ∧ events w2
      = (events w1
         ++ [Print line;
             WriteRow (row_for (utcnow_isoformat o (clock_reads w1))
                         username addr r)])%list
    ∧ posts_made w2 = posts_made w1.
Proof.
  intros Hsub. unfold submit_and_log, try_except, mbind, M_bind.
  rewrite Hsub. destruct r as [resp|e]; simpl.
  - eexists _, _. split; [reflexivity|]. simpl.
    by rewrite <- app_assoc.
  - eexists _, _. split; [reflexivity|]. simpl.
    by rewrite <- app_assoc.
Qed.

(** One record, run to its end: the state [w1] reached before the delay,
    and the delay itself, which is where a length [time.sleep] does not
    take raises. *)
Lemma process_record_run c o s total i addr w :
  ∃ w1 row,
    process_record c o s total i addr w
    = time_sleep o (DELAY_SECONDS c) w1
    ∧ grows_by (record_event c s [addr]) w w1
    ∧ log_rows (events w1) = (log_rows (events w) ++ [row])%list
    ∧ row_address row = addr
    ∧ (posts_made w ≤ posts_made w1
       ≤ posts_made w + Z.to_nat (MAX_RETRIES c))%nat
    ∧ ∃ evs, events w1 = (evs ++ [WriteRow row])%list.
Proof.
  unfold process_record.
  set (gen := if PyStr.truthy (ENTRY_USERNAME c)
              then gen_username o (BASE_USERNAME c) else mret EmptyString).
  assert (∃ u wg, gen w = (Returns u, wg) ∧ events wg = events w
                  ∧ posts_made wg = posts_made w)
    as (u & wg & Hgen & Hevs & Hposts).
  { subst gen. destruct (PyStr.truthy (ENTRY_USERNAME c)).
    - eexists _, _. split; [reflexivity|]. done.
    - eexists _, _. split; [reflexivity|]. done. }
  rewrite (bind_returns _ _ _ _ _ Hgen).
  erewrite bind_returns by reflexivity.
  match goal with |- context [(submit_and_log c o s u addr ?p ≫= _) ?w0] =>
    set (payload := p); set (w0' := w0);
    destruct (submit_with_retries c o s p w0) as [r w1] eqn:Hsub
  end.
  destruct (submit_and_log_run c o s u addr payload w0' r w1 Hsub)
    as (line & w2 & Hlog & Hevs2 & Hposts2).
  rewrite (bind_returns _ _ _ _ _ Hlog).
  pose proof (submit_attempts_events _ _ _ _ _ _ _ _ _ _ Hsub) as Hgrow.
  assert (posts_made w0' ≤ posts_made w1
          ≤ posts_made w0' + Z.to_nat (MAX_RETRIES c))%nat as Hbound.
  { pose proof Hsub as Hsub'.
    apply submit_attempts_outcome in Hsub' as (n & Hn & Hn' & _); [|lia].
    unfold w0'. simpl in Hn' |- *. lia. }
  pose proof (submit_with_retries_no_rows _ _ _ _ _ _ _ Hsub) as Hrows.
  exists w2, (row_for (utcnow_isoformat o (clock_reads w1)) u addr r).
  split; [|split; [|split; [|split; [|split]]]].
  - reflexivity.
  - eapply grows_by_trans with w0'.
    { eapply grows_by_events; [subst w0'; simpl; by rewrite Hevs|].
      by repeat constructor. }
    eapply grows_by_trans with w1.
    { eapply grows_by_weaken; [|exact Hgrow].
      intros [] H; simpl in *; try done.
      destruct H as (-> & -> & -> & ->). repeat split; try done.
      exists u, addr. split; [by left | done]. }
    eapply grows_by_events; [exact Hevs2|].
    constructor; [done|]. constructor; [|constructor].
    destruct r; simpl; by left.
  - rewrite Hevs2, log_rows_app, Hrows. subst w0'. simpl.
    rewrite log_rows_app, Hevs. simpl. by rewrite app_nil_r.
  - by destruct r.
  - rewrite Hposts2. subst w0'. simpl in Hbound. lia.
  - rewrite Hevs2. exists (events w1 ++ [Print line])%list.
    by rewrite <- app_assoc.
Qed.

Lemma record_event_mono c s l l' ev :
  l ⊆ l' → record_event c s l ev → record_event c s l' ev.
Proof.
  intros Hsub. destruct ev; simpl; try done.
  - intros (? & ? & ? & u & a & Ha & ?). repeat split; try done.
    exists u, a. split; [by apply Hsub | done].
  - apply Hsub.
Qed.

(** The loop over the records when [time.sleep] takes the delay. *)
Lemma process_records_run c o s total addresses d :
  (∀ w1, time_sleep o (DELAY_SECONDS c) w1
         = (Returns tt, after_event w1 (Sleep d))) →
  ∀ i w, ∃ w',
    process_records c o s total i addresses w = (Returns tt, w')
    ∧ grows_by (record_event c s addresses) w w'
    ∧ (posts_made w ≤ posts_made w'
       ≤ posts_made w + length addresses * Z.to_nat (MAX_RETRIES c))%nat
    ∧ (addresses ≠ [] →
       ∃ evs, events w' = (evs ++ [Sleep d])%list).
Proof.
  intros Hdelay. induction addresses as [|addr rest IH]; intros i w.
  - exists w. split; [done|]. split; [apply grows_by_refl|].
    split; [simpl; lia | done].
  - destruct (process_record_run c o s total i addr w)
      as (w1 & row & Hrec & Hgrow & _ & _ & Hposts & _).
    rewrite Hdelay in Hrec.
    destruct (IH (S i) (after_event w1 (Sleep d)))
      as (w2 & Hrest & Hgrow2 & Hposts2 & Hlast).
    exists w2. simpl. rewrite (bind_returns _ _ _ _ _ Hrec).
    split; [done|]. split; [|split].
    + eapply grows_by_trans with w1.
      { eapply grows_by_weaken; [|exact Hgrow].
        intros ev. apply record_event_mono.
        intros x ->%list_elem_of_singleton. by left. }
      eapply grows_by_trans; [|eapply grows_by_weaken; [|exact Hgrow2]].
      * eapply grows_by_events; [reflexivity|]. by repeat constructor.
      * intros ev. apply record_event_mono. intros x ?. by right.
    + simpl in Hposts2. simpl. lia.
    + intros _. destruct rest as [|addr' rest'].
      * simpl in Hrest. injection Hrest as <-. by eexists.
      * by apply Hlast.
Qed.

(** The loop over the records when [time.sleep] refuses the delay: it ends
    at the delay of the first record. *)
Lemma process_records_refused c o s total addr rest i w e :
  (∀ w1, time_sleep o (DELAY_SECONDS c) w1 = (Raises e, w1)) →
  ∃ w' row,
    process_records c o s total i (addr :: rest) w
    = (Raises e, w')
    ∧ grows_by (record_event c s (addr :: rest)) w w'
    ∧ log_rows (events w') = (log_rows (events w) ++ [row])%list
    ∧ row_address row = addr
    ∧ (posts_made w ≤ posts_made w'
       ≤ posts_made w + Z.to_nat (MAX_RETRIES c))%nat
    ∧ ∃ evs, events w' = (evs ++ [WriteRow row])%list.
Proof.
  intros Hdelay.
  destruct (process_record_run c o s total i addr w)
    as (w1 & row & Hrec & Hgrow & Hrows & Haddr & Hposts & Hlast).
  rewrite Hdelay in Hrec. exists w1, row. simpl.
  unfold mbind, M_bind. rewrite Hrec. split; [done|].
  split; [|done].
  eapply grows_by_weaken; [|exact Hgrow].
  intros ev. apply record_event_mono.
  intros x ->%list_elem_of_singleton. by left.
Qed.

(** The loop over the records, whatever the delay. *)
Lemma process_records_any c o s total addresses i w r w' :
  process_records c o s total i addresses w = (r, w') →
  grows_by (record_event c s addresses) w w'
  ∧ (posts_made w ≤ posts_made w'
     ≤ posts_made w + length addresses * Z.to_nat (MAX_RETRIES c))%nat.
Proof.
  destruct (time_sleep_cases o (DELAY_SECONDS c))
    as [(d & _ & Hdelay)|(e & Hdelay)].
  - destruct (process_records_run c o s total addresses d Hdelay i w)
      as (w2 & Hrun & Hgrow & Hposts & _).
    rewrite Hrun. by intros [= _ <-].
  - destruct addresses as [|addr rest].
    + simpl. intros [= _ <-]. split; [apply grows_by_refl | simpl; lia].
    + destruct (process_records_refused c o s total addr rest i w e Hdelay)
        as (w2 & row & Hrun & Hgrow & _ & _ & Hposts & _).
      rewrite Hrun. intros [= _ <-]. split; [done|]. simpl. lia.
Qed.

(** The session [mk_session] returns, and the world after it: at most one
    print was added. *)
Lemma mk_session_run c w :
  ∃ s w0, mk_session c w = (Returns s, w0)
    ∧ grows_by (λ ev, is_print ev = true) w w0
    ∧ posts_made w0 = posts_made w.
Proof.
  unfold mk_session. destruct (PyStr.truthy (SESSION_COOKIES c)).
  - eexists _, _. split; [reflexivity|]. split; [|done].
    eapply grows_by_events; [reflexivity|]. by repeat constructor.
  - eexists _, _. split; [reflexivity|]. split; [apply grows_by_refl|done].
Qed.

(** A validated run of which the log cannot be opened: the session is
    made, and [main] raises what [open] raised. *)
Lemma main_open_fails c o w e :
  validated c o →
  open_w_error o (OUTPUT_CSV c) = Some e →
  ∃ s w0, mk_session c w = (Returns s, w0) ∧ main c o w = (Raises e, w0).
Proof.
  intros (Hurl & Hfields & Hrecords) Hopen. unfold main.
  apply truthy_true in Hurl. rewrite Hurl, Hfields. simpl.
  rewrite bool_decide_eq_false_2 by done.
  destruct (mk_session_run c w) as (s & w0 & Hs & _ & _).
  rewrite (bind_returns _ _ _ _ _ Hs).
  unfold mbind at 1, M_bind at 1.
  rewrite (with_open_w_fails _ _ _ _ e) by done.
  by exists s, w0.
Qed.

(** A validated run of which the log opens, piece by piece: the session,
    the loop over the records inside the opened log, the closing of the log
    and, if the loop returned, the last print. *)
Lemma main_run c o w :
  validated c o →
  open_w_error o (OUTPUT_CSV c) = None →
  ∃ s w0 r wb,
    mk_session c w = (Returns s, w0)
    ∧ process_records c o s (length (read_addresses o (ADDRESS_FILE c))) 1
        (read_addresses o (ADDRESS_FILE c))
        (after_event (after_event w0 (OpenW (OUTPUT_CSV c)))
           (WriteHeader csv_fieldnames))
      = (r, wb)
    ∧ main c o w
      = match r with
        | Returns _ =>
            (Returns tt,
             after_event (after_event wb (Close (OUTPUT_CSV c)))
               (Print (done_line c)))
        | Raises e => (Raises e, after_event wb (Close (OUTPUT_CSV c)))
        end.
Proof.
  intros (Hurl & Hfields & Hrecords) Hopen. unfold main.
  apply truthy_true in Hurl. rewrite Hurl, Hfields. simpl.
  rewrite bool_decide_eq_false_2 by done.
  destruct (mk_session_run c w) as (s & w0 & Hs & _ & _).
  rewrite (bind_returns _ _ _ _ _ Hs).
  unfold mbind at 1, M_bind at 1. rewrite with_open_w_run by done.
  erewrite (bind_returns (emit _)) by reflexivity.
  match goal with |- context [process_records c o s ?t ?i ?l ?w1] =>
    destruct (process_records c o s t i l w1) as [r wb] eqn:Hrun
  end.
  exists s, w0, r, wb. split; [done|]. split; [exact Hrun|].
  by destruct r as [[]|e].
Qed.





(** X21.  A run makes at most as many POSTs as there are records times
    [MAX_RETRIES] (none when [MAX_RETRIES] is not positive). *)
Theorem run_posts_bounded c o r w' :
  main c o initial_world = (r, w') →
  (posts_made w'
   ≤ length (read_addresses o (ADDRESS_FILE c)) * Z.to_nat (MAX_RETRIES c))%nat.
Proof.
  destruct (decide (FORM_RESPONSE_URL c = EmptyString)) as [Hurl|Hurl].
  { unfold main. rewrite Hurl. simpl. intros [= _ <-]. simpl. lia. }
  destruct (any_field_configured c) eqn:Hfields; cycle 1.
  { unfold main. apply truthy_true in Hurl. rewrite Hurl, Hfields. simpl.
    intros [= _ <-]. simpl. lia. }
  destruct (decide (read_addresses o (ADDRESS_FILE c) = [])) as [Hrec|Hrec].
  { unfold main. apply truthy_true in Hurl. rewrite Hurl, Hfields, Hrec.
    simpl. intros [= _ <-]. simpl. lia. }
  destruct (open_w_error o (OUTPUT_CSV c)) as [e|] eqn:Hopen.
  { destruct (main_open_fails c o initial_world e) as (s & w0 & Hs & ->);
      [done..|].
    destruct (mk_session_run c initial_world) as (s' & w0' & Hs' & _ & Hposts0).
    rewrite Hs in Hs'. injection Hs' as <- <-.
    intros [= _ <-]. rewrite Hposts0. simpl. lia. }
  destruct (main_run c o initial_world) as (s & w0 & r' & wb & Hs & Hrun & ->);
    [done..|].
  destruct (mk_session_run c initial_world) as (s' & w0' & Hs' & _ & Hposts0).
  rewrite Hs in Hs'. injection Hs' as <- <-.
  apply process_records_any in Hrun as [_ Hposts]. simpl in Hposts.
  rewrite Hposts0 in Hposts. simpl in Hposts.
  destruct r' as [[]|e]; intros [= _ <-]; simpl; lia.
Qed.

(** X21 at work: two records, two attempts each, all refused. *)
Lemma run_posts_bounded_witness :
  (posts_made (main (config_of env_one_address_field)
                 (oracle_answering (Fails connection_error))
                 initial_world).2 ≤ 2 * 2)%nat.
Proof.
  exact (run_posts_bounded (config_of env_one_address_field)
           (oracle_answering (Fails connection_error)) _ _
           (surjective_pairing _)).
Defined.

(** X22.  In a validated run of which the log file can be opened, the log
    is opened once, the header is written right after, and the log is
    closed once, whether the run returns or raises; before the opening
    there are only prints, and after the closing only the final print of a
    run that returned. *)
Theorem log_opened_and_closed_once c o r w' :
  validated c o →
  open_w_error o (OUTPUT_CSV c) = None →
  main c o initial_world = (r, w') →
  ∃ pre body post,
    events w'
    = (pre ++ [OpenW (OUTPUT_CSV c); WriteHeader csv_fieldnames]
       ++ body ++ [Close (OUTPUT_CSV c)] ++ post)%list
    ∧ Forall (λ ev, is_print ev = true) pre
    ∧ Forall (λ ev, is_log_io ev = false) body
    ∧ post = match r with
             | Returns _ => [Print (done_line c)]
             | Raises _ => []
             end.
Proof.
  intros Hvalid Hopen.
  destruct (main_run c o initial_world Hvalid Hopen)
    as (s & w0 & r' & wb & Hs & Hrun & ->).
  destruct (mk_session_run c initial_world)
    as (s' & w0' & Hs' & (pre & Hpre & Hprints) & _).
  rewrite Hs in Hs'. injection Hs' as <- <-.
  apply process_records_any in Hrun as [(body & Hbody & Hevents) _].
  simpl in Hbody, Hpre.
  intros Hmain. exists pre, body.
  assert (Forall (λ ev, is_log_io ev = false) body) as Hio.
  { eapply Forall_impl; [exact Hevents|]. by intros []. }
  destruct r' as [[]|e]; injection Hmain as <- <-; eexists;
    (split; [|done]); simpl; rewrite Hbody, Hpre;
    by rewrite <- !app_assoc.
Qed.

(** X22 at work: a run of two answered submissions. *)
Lemma log_opened_and_closed_once_witness :
  ∃ pre body,
    events (main (config_of env_one_address_field)
              (oracle_answering (Responds response_200)) initial_world).2
    = (pre ++ [OpenW (OUTPUT_CSV (config_of env_one_address_field));
               WriteHeader csv_fieldnames]
       ++ body ++ [Close (OUTPUT_CSV (config_of env_one_address_field))]
       ++ [Print (done_line (config_of env_one_address_field))])%list
    ∧ Forall (λ ev, is_print ev = true) pre
    ∧ Forall (λ ev, is_log_io ev = false) body.
Proof.
  destruct (log_opened_and_closed_once (config_of env_one_address_field)
              (oracle_answering (Responds response_200)) (Returns tt)
              (main (config_of env_one_address_field)
                 (oracle_answering (Responds response_200)) initial_world).2)
    as (pre & body & post & Hevents & Hpre & Hbody & Hpost).
  - split; [by vm_compute|]. split; [reflexivity | by vm_compute].
  - reflexivity.
  - vm_compute. reflexivity.
  - exists pre, body. rewrite Hpost in Hevents.
    split; [exact Hevents|]. split; [exact Hpre | exact Hbody].
Defined.

(** X23.  Every POST of a run goes to [FORM_RESPONSE_URL] with the timeout
    [TIMEOUT], through the session [mk_session] returned, and carries
    the payload [build_payload] gives for one of the records. *)
Theorem every_post_is_a_record_payload c o r w' s url data tmo :
  main c o initial_world = (r, w') →
  Post s url data tmo ∈ events w' →
  (mk_session c initial_world).1 = Returns s
  ∧ url = FORM_RESPONSE_URL c ∧ tmo = TIMEOUT c
  ∧ ∃ username addr,
      addr ∈ read_addresses o (ADDRESS_FILE c)
      ∧ data = build_payload c username addr.
Proof.
  destruct (decide (FORM_RESPONSE_URL c = EmptyString)) as [Hurl|Hurl].
  { unfold main. rewrite Hurl. simpl. intros [= _ <-]. simpl.
    intros [=]%list_elem_of_singleton. }
  destruct (any_field_configured c) eqn:Hfields; cycle 1.
  { unfold main. apply truthy_true in Hurl. rewrite Hurl, Hfields. simpl.
    intros [= _ <-]. simpl. intros [=]%list_elem_of_singleton. }
  destruct (decide (read_addresses o (ADDRESS_FILE c) = [])) as [Hrec|Hrec].
  { unfold main. apply truthy_true in Hurl. rewrite Hurl, Hfields, Hrec.
    simpl. intros [= _ <-]. simpl. intros [=]%list_elem_of_singleton. }
  destruct (open_w_error o (OUTPUT_CSV c)) as [e|] eqn:Hopen.
  { destruct (main_open_fails c o initial_world e) as (s0 & w0 & Hs & ->);
      [done..|].
    destruct (mk_session_run c initial_world)
      as (s' & w0' & Hs' & (pre & Hpre & Hprints) & _).
    rewrite Hs in Hs'. injection Hs' as <- <-.
    intros [= _ <-]. rewrite Hpre. simpl. intros Hpost.
    rewrite Forall_forall in Hprints. by apply Hprints in Hpost. }
  destruct (main_run c o initial_world) as (s0 & w0 & r' & wb & Hs & Hrun & ->);
    [done..|].
  destruct (mk_session_run c initial_world)
    as (s' & w0' & Hs' & (pre & Hpre & Hprints) & _).
  rewrite Hs in Hs'. injection Hs' as <- <-.
  apply process_records_any in Hrun as [(body & Hbody & Hevents) _].
  simpl in Hbody, Hpre. rewrite Hs. simpl.
  assert (Post s url data tmo ∈ body → Returns s0 = Returns s
            ∧ url = FORM_RESPONSE_URL c ∧ tmo = TIMEOUT c
            ∧ ∃ username addr,
                addr ∈ read_addresses o (ADDRESS_FILE c)
                ∧ data = build_payload c username addr) as Hin.
  { intros Hpost. rewrite Forall_forall in Hevents.
    apply Hevents in Hpost. simpl in Hpost.
    destruct Hpost as (-> & ? & ? & ?). done. }
  assert (Post s url data tmo ∉ pre) as Hnpre.
  { intros Hpost. rewrite Forall_forall in Hprints.
    by apply Hprints in Hpost. }
  assert (∀ tail, Forall (λ ev, is_post ev = false) tail →
            Post s url data tmo
              ∈ ((((pre ++ [OpenW (OUTPUT_CSV c)])
                   ++ [WriteHeader csv_fieldnames]) ++ body) ++ tail)%list →
            Post s url data tmo ∈ body) as Hbody_only.
  { intros tail Htail.
    rewrite !elem_of_app, !list_elem_of_singleton.
    intros [[[[?|?]|?]|?]|Hpost]; try done.
    rewrite Forall_forall in Htail. by apply Htail in Hpost. }
  destruct r' as [[]|e]; intros [= _ <-]; simpl; rewrite Hbody, Hpre;
    rewrite <- ?app_assoc; rewrite ?app_assoc; intros H; apply Hin.
  - apply (Hbody_only [Close (OUTPUT_CSV c); Print (done_line c)]);
      [by repeat constructor|].
    by rewrite <- (app_assoc _ [_] [_]) in H.
  - apply (Hbody_only [Close (OUTPUT_CSV c)]); [by repeat constructor|done].
Qed.

(** X23 at work: the POST for the first record. *)
Lemma every_post_is_a_record_payload_witness :
  ∃ s data,
    Post s "https://forms.example/formResponse" data 30
      ∈ events (main (config_of env_one_address_field)
                  (oracle_answering (Responds response_200)) initial_world).2
    ∧ ∃ username addr,
        addr ∈ ["0xaaa"; "0xbbb"]
        ∧ data = build_payload (config_of env_one_address_field) username addr.
Proof.
  pose (c := config_of env_one_address_field).
  pose (o := oracle_answering (Responds response_200)).
  assert (∃ s data, Post s "https://forms.example/formResponse" data 30
                      ∈ events (main c o initial_world).2)
    as (s & data & Hin).
  { eexists _, _. vm_compute.
    do 3 apply list_elem_of_further. apply list_elem_of_here. }
  exists s, data. split; [exact Hin|].
  exact (proj2 (proj2 (proj2
           (every_post_is_a_record_payload c o _ _ s _ data 30
              (surjective_pairing _) Hin)))).
Defined.

(** X24.  When [open] refuses [OUTPUT_CSV] (the empty path, a path with a NUL
    character, or a path the operating system does not open for writing),
    a validated run ends there: [main] raises the exception of [open], and
    nothing has happened but the prints of [mk_session]: no POST is made
    and no row is written. *)
Theorem unopened_log_stops_the_run c o e :
  validated c o →
  open_w_error o (OUTPUT_CSV c) = Some e →
  ∃ w',
    main c o initial_world = (Raises e, w')
    ∧ Forall (λ ev, is_print ev = true) (events w')
    ∧ posts_made w' = 0%nat.
Proof.
  intros Hvalid Hopen.
  destruct (main_open_fails c o initial_world e Hvalid Hopen)
    as (s & w0 & Hs & Hmain).
  destruct (mk_session_run c initial_world)
    as (s' & w0' & Hs' & (pre & Hpre & Hprints) & Hposts).
  rewrite Hs in Hs'. injection Hs' as <- <-.
  exists w0. split; [done|]. split; [|done].
  by rewrite Hpre.
Qed.

(** X24 at work: [OUTPUT_CSV=] in the settings. *)
Lemma unopened_log_stops_the_run_witness :
  ∃ w',
    main (config_of env_no_output_path)
      (oracle_answering (Responds response_200)) initial_world
    = (Raises no_such_file, w')
    ∧ events w' = [].
Proof.
  destruct (unopened_log_stops_the_run (config_of env_no_output_path)
              (oracle_answering (Responds response_200)) no_such_file)
    as (w' & Hmain & _ & _).
  - split; [by vm_compute|]. split; [reflexivity | by vm_compute].
  - reflexivity.
  - exists w'. split; [exact Hmain|].
    revert Hmain. vm_compute. by intros [= <-].
Defined.
